(** * performance-api: the admission and batched-durability core

    A shallow embedding of [src/index.ts]: the in-memory Record Queue
    ([pending]), the Dead-Letter Queue ([deadLetters]), the two flush cycles,
    the admission gate ([handleRequest]), the latency histogram with the
    histogram lines of [renderMetrics], and [shutdown].

    Modelling conventions.
    - The module-level [let]/[const] bindings of the source become the fields
      of one [State] record; every function takes and returns the state.
    - The configuration constants read from the environment at start-up
      ([batchSize], [maxQueueSize], [maxDeadQueueSize]) are integers, kept in
      a [Config] record.
    - An [async] function is cut at its single [await]: the part that runs
      before the suspension ([*_begin]) and the part that runs once the
      awaited promise settles ([*_resume]).  The outcome of the awaited
      operation (the body text, the result of the SQL insert) and the clock
      readings are inputs of the resuming part.
    - Strings are [string]; a character of the model stands for one UTF-16
      code unit, so [String.length] is [.length] and [substring 0 n] is
      [.slice(0, n)] for a non-negative [n].
    - A number of the source is a double; its value is a rational ([Q]).
      Comparisons are exact on the values.  Where the source adds or
      multiplies two doubles ([latencySumMs += valueMs], [latencyCount *
      targetPercentile]) the model rounds the exact result to the nearest
      double, ties to even, as IEEE 754 does ([round_double]).  The model has
      no infinities: beyond the largest double it keeps rounding to 53 bits,
      which no latency sum or threshold of the server comes near.
      Counters and lengths are whole numbers ([nat]): doubles are exact on
      them below 2^53.
    - A call written with a spread, [f(...array)], is refused by the engine
      with a [RangeError] when the array is longer than the most arguments
      the engine takes in one call.  That number belongs to the engine, not
      to the program; the model keeps it in the [maxArguments] field of
      [Config] (JavaScriptCore, on which Bun runs, takes 65536).
    - [console.error] appends its message to the [console] field. *)

From Stdlib Require Import ZArith QArith Qround Qpower String Lia Lqa.
From stdpp Require Import base list relations pretty.

Local Open Scope string_scope.
Local Open Scope list_scope.
Local Open Scope nat_scope.

(** ** Thrown values and their rendering *)

(** What a rejected promise carries: an [Error] object with its [message], or
    any other value, given by the text [String(value)] produces. *)
Inductive thrown : Type :=
  | ThrownError (message : string)
  | ThrownOther (text : string).

Definition formatError (error : thrown) : string :=
  match error with
  | ThrownError message => message
  | ThrownOther text => text
  end.

(** [s.slice(0, 1000)] *)
Definition slice1000 (s : string) : string := substring 0 1000 s.

(** ** Data model *)

Record RequestRecord : Type := {
  trace_id : string;
  received_at : Z;
  method : string;
  path : string;
  payload : option string
}.

(** [RequestRecord & { error: string }]: the five fields of the record, copied
    by the spread, and the error text. *)
Record DeadLetterRecord : Type := {
  base : RequestRecord;
  error : string
}.

(** The three constants the program reads from its environment, and the one
    number of the engine the program depends on: the most arguments a call
    may spread ([maxArguments]). *)
Record Config : Type := {
  batchSize : Z;
  maxQueueSize : Z;
  maxDeadQueueSize : Z;
  maxArguments : Z
}.

(** The defaults of the source, on JavaScriptCore. *)
Definition defaultConfig : Config :=
  {| batchSize := 1000; maxQueueSize := 200000; maxDeadQueueSize := 100000;
     maxArguments := 65536 |}.

Definition latencyBucketsMs : list Z :=
  [1; 2; 5; 10; 20; 50; 100; 200; 500; 1000; 2000; 5000; 10000]%Z.

Record State : Type := {
  pending : list RequestRecord;
  deadLetters : list DeadLetterRecord;
  flushing : bool;
  deadFlushing : bool;
  totalReceived : nat;
  totalAccepted : nat;
  totalRejected : nat;
  totalDeadLetters : nat;
  totalDbErrors : nat;
  lastFlushAt : option Z;
  lastDeadFlushAt : option Z;
  lastFlushError : option string;
  lastDeadFlushError : option string;
  latencyHistogram : list nat;
  latencySumMs : Q;
  latencyCount : nat;
  console : list string
}.

(** The state the module is in when the server starts listening. *)
Definition initialState : State := {|
  pending := [];
  deadLetters := [];
  flushing := false;
  deadFlushing := false;
  totalReceived := 0;
  totalAccepted := 0;
  totalRejected := 0;
  totalDeadLetters := 0;
  totalDbErrors := 0;
  lastFlushAt := None;
  lastDeadFlushAt := None;
  lastFlushError := None;
  lastDeadFlushError := None;
  latencyHistogram := replicate (length latencyBucketsMs + 1) 0;
  latencySumMs := 0%Q;
  latencyCount := 0;
  console := []
|}.

(** *** Assignments to the module-level bindings *)

Definition set_pending (v : list RequestRecord) (s : State) : State :=
  {| pending := v; deadLetters := deadLetters s; flushing := flushing s;
     deadFlushing := deadFlushing s; totalReceived := totalReceived s;
     totalAccepted := totalAccepted s; totalRejected := totalRejected s;
     totalDeadLetters := totalDeadLetters s; totalDbErrors := totalDbErrors s;
     lastFlushAt := lastFlushAt s; lastDeadFlushAt := lastDeadFlushAt s;
     lastFlushError := lastFlushError s;
     lastDeadFlushError := lastDeadFlushError s;
     latencyHistogram := latencyHistogram s; latencySumMs := latencySumMs s;
     latencyCount := latencyCount s; console := console s |}.

Definition set_deadLetters (v : list DeadLetterRecord) (s : State) : State :=
  {| pending := pending s; deadLetters := v; flushing := flushing s;
     deadFlushing := deadFlushing s; totalReceived := totalReceived s;
     totalAccepted := totalAccepted s; totalRejected := totalRejected s;
     totalDeadLetters := totalDeadLetters s; totalDbErrors := totalDbErrors s;
     lastFlushAt := lastFlushAt s; lastDeadFlushAt := lastDeadFlushAt s;
     lastFlushError := lastFlushError s;
     lastDeadFlushError := lastDeadFlushError s;
     latencyHistogram := latencyHistogram s; latencySumMs := latencySumMs s;
     latencyCount := latencyCount s; console := console s |}.

Definition set_flushing (v : bool) (s : State) : State :=
  {| pending := pending s; deadLetters := deadLetters s; flushing := v;
     deadFlushing := deadFlushing s; totalReceived := totalReceived s;
     totalAccepted := totalAccepted s; totalRejected := totalRejected s;
     totalDeadLetters := totalDeadLetters s; totalDbErrors := totalDbErrors s;
     lastFlushAt := lastFlushAt s; lastDeadFlushAt := lastDeadFlushAt s;
     lastFlushError := lastFlushError s;
     lastDeadFlushError := lastDeadFlushError s;
     latencyHistogram := latencyHistogram s; latencySumMs := latencySumMs s;
     latencyCount := latencyCount s; console := console s |}.

Definition set_deadFlushing (v : bool) (s : State) : State :=
  {| pending := pending s; deadLetters := deadLetters s; flushing := flushing s;
     deadFlushing := v; totalReceived := totalReceived s;
     totalAccepted := totalAccepted s; totalRejected := totalRejected s;
     totalDeadLetters := totalDeadLetters s; totalDbErrors := totalDbErrors s;
     lastFlushAt := lastFlushAt s; lastDeadFlushAt := lastDeadFlushAt s;
     lastFlushError := lastFlushError s;
     lastDeadFlushError := lastDeadFlushError s;
     latencyHistogram := latencyHistogram s; latencySumMs := latencySumMs s;
     latencyCount := latencyCount s; console := console s |}.

Definition set_totalReceived (v : nat) (s : State) : State :=
  {| pending := pending s; deadLetters := deadLetters s; flushing := flushing s;
     deadFlushing := deadFlushing s; totalReceived := v;
     totalAccepted := totalAccepted s; totalRejected := totalRejected s;
     totalDeadLetters := totalDeadLetters s; totalDbErrors := totalDbErrors s;
     lastFlushAt := lastFlushAt s; lastDeadFlushAt := lastDeadFlushAt s;
     lastFlushError := lastFlushError s;
     lastDeadFlushError := lastDeadFlushError s;
     latencyHistogram := latencyHistogram s; latencySumMs := latencySumMs s;
     latencyCount := latencyCount s; console := console s |}.

Definition set_totalAccepted (v : nat) (s : State) : State :=
  {| pending := pending s; deadLetters := deadLetters s; flushing := flushing s;
     deadFlushing := deadFlushing s; totalReceived := totalReceived s;
     totalAccepted := v; totalRejected := totalRejected s;
     totalDeadLetters := totalDeadLetters s; totalDbErrors := totalDbErrors s;
     lastFlushAt := lastFlushAt s; lastDeadFlushAt := lastDeadFlushAt s;
     lastFlushError := lastFlushError s;
     lastDeadFlushError := lastDeadFlushError s;
     latencyHistogram := latencyHistogram s; latencySumMs := latencySumMs s;
     latencyCount := latencyCount s; console := console s |}.

Definition set_totalRejected (v : nat) (s : State) : State :=
  {| pending := pending s; deadLetters := deadLetters s; flushing := flushing s;
     deadFlushing := deadFlushing s; totalReceived := totalReceived s;
     totalAccepted := totalAccepted s; totalRejected := v;
     totalDeadLetters := totalDeadLetters s; totalDbErrors := totalDbErrors s;
     lastFlushAt := lastFlushAt s; lastDeadFlushAt := lastDeadFlushAt s;
     lastFlushError := lastFlushError s;
     lastDeadFlushError := lastDeadFlushError s;
     latencyHistogram := latencyHistogram s; latencySumMs := latencySumMs s;
     latencyCount := latencyCount s; console := console s |}.

Definition set_totalDeadLetters (v : nat) (s : State) : State :=
  {| pending := pending s; deadLetters := deadLetters s; flushing := flushing s;
     deadFlushing := deadFlushing s; totalReceived := totalReceived s;
     totalAccepted := totalAccepted s; totalRejected := totalRejected s;
     totalDeadLetters := v; totalDbErrors := totalDbErrors s;
     lastFlushAt := lastFlushAt s; lastDeadFlushAt := lastDeadFlushAt s;
     lastFlushError := lastFlushError s;
     lastDeadFlushError := lastDeadFlushError s;
     latencyHistogram := latencyHistogram s; latencySumMs := latencySumMs s;
     latencyCount := latencyCount s; console := console s |}.

Definition set_totalDbErrors (v : nat) (s : State) : State :=
  {| pending := pending s; deadLetters := deadLetters s; flushing := flushing s;
     deadFlushing := deadFlushing s; totalReceived := totalReceived s;
     totalAccepted := totalAccepted s; totalRejected := totalRejected s;
     totalDeadLetters := totalDeadLetters s; totalDbErrors := v;
     lastFlushAt := lastFlushAt s; lastDeadFlushAt := lastDeadFlushAt s;
     lastFlushError := lastFlushError s;
     lastDeadFlushError := lastDeadFlushError s;
     latencyHistogram := latencyHistogram s; latencySumMs := latencySumMs s;
     latencyCount := latencyCount s; console := console s |}.

Definition set_lastFlushAt (v : option Z) (s : State) : State :=
  {| pending := pending s; deadLetters := deadLetters s; flushing := flushing s;
     deadFlushing := deadFlushing s; totalReceived := totalReceived s;
     totalAccepted := totalAccepted s; totalRejected := totalRejected s;
     totalDeadLetters := totalDeadLetters s; totalDbErrors := totalDbErrors s;
     lastFlushAt := v; lastDeadFlushAt := lastDeadFlushAt s;
     lastFlushError := lastFlushError s;
     lastDeadFlushError := lastDeadFlushError s;
     latencyHistogram := latencyHistogram s; latencySumMs := latencySumMs s;
     latencyCount := latencyCount s; console := console s |}.

Definition set_lastDeadFlushAt (v : option Z) (s : State) : State :=
  {| pending := pending s; deadLetters := deadLetters s; flushing := flushing s;
     deadFlushing := deadFlushing s; totalReceived := totalReceived s;
     totalAccepted := totalAccepted s; totalRejected := totalRejected s;
     totalDeadLetters := totalDeadLetters s; totalDbErrors := totalDbErrors s;
     lastFlushAt := lastFlushAt s; lastDeadFlushAt := v;
     lastFlushError := lastFlushError s;
     lastDeadFlushError := lastDeadFlushError s;
     latencyHistogram := latencyHistogram s; latencySumMs := latencySumMs s;
     latencyCount := latencyCount s; console := console s |}.

Definition set_lastFlushError (v : option string) (s : State) : State :=
  {| pending := pending s; deadLetters := deadLetters s; flushing := flushing s;
     deadFlushing := deadFlushing s; totalReceived := totalReceived s;
     totalAccepted := totalAccepted s; totalRejected := totalRejected s;
     totalDeadLetters := totalDeadLetters s; totalDbErrors := totalDbErrors s;
     lastFlushAt := lastFlushAt s; lastDeadFlushAt := lastDeadFlushAt s;
     lastFlushError := v;
     lastDeadFlushError := lastDeadFlushError s;
     latencyHistogram := latencyHistogram s; latencySumMs := latencySumMs s;
     latencyCount := latencyCount s; console := console s |}.

Definition set_lastDeadFlushError (v : option string) (s : State) : State :=
  {| pending := pending s; deadLetters := deadLetters s; flushing := flushing s;
     deadFlushing := deadFlushing s; totalReceived := totalReceived s;
     totalAccepted := totalAccepted s; totalRejected := totalRejected s;
     totalDeadLetters := totalDeadLetters s; totalDbErrors := totalDbErrors s;
     lastFlushAt := lastFlushAt s; lastDeadFlushAt := lastDeadFlushAt s;
     lastFlushError := lastFlushError s;
     lastDeadFlushError := v;
     latencyHistogram := latencyHistogram s; latencySumMs := latencySumMs s;
     latencyCount := latencyCount s; console := console s |}.

Definition set_latency (h : list nat) (sum : Q) (count : nat) (s : State) : State :=
  {| pending := pending s; deadLetters := deadLetters s; flushing := flushing s;
     deadFlushing := deadFlushing s; totalReceived := totalReceived s;
     totalAccepted := totalAccepted s; totalRejected := totalRejected s;
     totalDeadLetters := totalDeadLetters s; totalDbErrors := totalDbErrors s;
     lastFlushAt := lastFlushAt s; lastDeadFlushAt := lastDeadFlushAt s;
     lastFlushError := lastFlushError s;
     lastDeadFlushError := lastDeadFlushError s;
     latencyHistogram := h; latencySumMs := sum;
     latencyCount := count; console := console s |}.

(** [console.error(message)] *)
Definition console_error (message : string) (s : State) : State :=
  {| pending := pending s; deadLetters := deadLetters s; flushing := flushing s;
     deadFlushing := deadFlushing s; totalReceived := totalReceived s;
     totalAccepted := totalAccepted s; totalRejected := totalRejected s;
     totalDeadLetters := totalDeadLetters s; totalDbErrors := totalDbErrors s;
     lastFlushAt := lastFlushAt s; lastDeadFlushAt := lastDeadFlushAt s;
     lastFlushError := lastFlushError s;
     lastDeadFlushError := lastDeadFlushError s;
     latencyHistogram := latencyHistogram s; latencySumMs := latencySumMs s;
     latencyCount := latencyCount s; console := console s ++ [message] |}.

(** ** Doubles

    The value of [round_double x] is the double nearest to [x], ties going to
    the even mantissa: a mantissa of at most 53 bits and an exponent of at
    least -1074. *)

(** The nearest whole number, ties to even. *)
Definition rne (q : Q) : Z :=
  let f := Qfloor q in
  match Qcompare (q - inject_Z f) (1 # 2) with
  | Lt => f
  | Gt => (f + 1)%Z
  | Eq => if Z.even f then f else (f + 1)%Z
  end.

(** The floor of the binary logarithm of a positive rational. *)
Definition ilog2 (x : Q) : Z :=
  let d := (Z.log2 (Qnum x) - Z.log2 (Zpos (Qden x)))%Z in
  if Qle_bool (2 ^ d) x then d else (d - 1)%Z.

(** The exponent of the last bit of the mantissa of a positive [x]. *)
Definition dexp (x : Q) : Z := Z.max (-1074) (ilog2 x - 52).

Definition round_pos (x : Q) : Q :=
  let e := dexp x in (inject_Z (rne (x * 2 ^ (- e))) * 2 ^ e)%Q.

Definition round_double (x : Q) : Q :=
  match Qcompare x 0 with
  | Eq => 0%Q
  | Gt => round_pos x
  | Lt => (- round_pos (- x))%Q
  end.

Arguments round_double : simpl never.

(** The doubles the literals [0.1] and [0.2] denote. *)
Definition double_0_1 : Q := 3602879701896397 # 36028797018963968.
Definition double_0_2 : Q := 3602879701896397 # 18014398509481984.

(** ** Latency recorder *)

(** [Array.prototype.findIndex]: the index of the first element the predicate
    accepts, [None] for the source's [-1]. *)
Fixpoint findIndex {A : Type} (p : A -> bool) (l : list A) : option nat :=
  match l with
  | [] => None
  | x :: rest => if p x then Some 0 else S <$> findIndex p rest
  end.

(** [latencyHistogram] always has [latencyBucketsMs.length + 1] slots, so the
    two indexed increments of the source are in range; [alter] leaves a list
    alone out of range, which no run reaches. *)
Definition recordLatency (valueMs : Q) (s : State) : State :=
  let bucketIndex :=
    findIndex (fun limit => Qle_bool valueMs (inject_Z limit)) latencyBucketsMs in
  let histogram :=
    match bucketIndex with
    | None => alter S (length (latencyHistogram s) - 1) (latencyHistogram s)
    | Some i => alter S i (latencyHistogram s)
    end in
  set_latency histogram (round_double (latencySumMs s + valueMs))
    (latencyCount s + 1) s.

(** [latencyBucketsMs[latencyBucketsMs.length - 1]] *)
Definition lastBucketMs : Z :=
  nth (length latencyBucketsMs - 1) latencyBucketsMs 0%Z.

(** The [for] loop of [percentile], entered at index [i] with the counts from
    [i] on still to read and [cumulative] summed so far. *)
Fixpoint percentile_loop (threshold : Q) (i cumulative : nat) (rest : list nat) : Z :=
  match rest with
  | [] => lastBucketMs
  | count :: rest' =>
      let cumulative := cumulative + count in
      if Qle_bool threshold (inject_Z (Z.of_nat cumulative))
      then (if i <? length latencyBucketsMs
            then nth i latencyBucketsMs 0%Z
            else lastBucketMs)
      else percentile_loop threshold (S i) cumulative rest'
  end.

Definition percentile (targetPercentile : Q) (s : State) : Z :=
  if latencyCount s =? 0 then 0%Z
  else
    let threshold :=
      round_double (inject_Z (Z.of_nat (latencyCount s)) * targetPercentile) in
    percentile_loop threshold 0 0 (latencyHistogram s).

(** ** Dead-letter routing at admission time *)

Definition overflow_dropping_record : string :=
  "Dead letter queue overflow, dropping record.".

Definition overflow_dropping_records : string :=
  "Dead letter queue overflow, dropping records.".

Definition enqueueDeadLetter (cfg : Config) (record : RequestRecord)
    (err : string) (s : State) : State :=
  if (maxDeadQueueSize cfg <=? Z.of_nat (length (deadLetters s)))%Z
  then console_error overflow_dropping_record s
  else
    set_deadLetters
      (deadLetters s ++ [{| base := record; error := slice1000 err |}])
      (set_totalDeadLetters (totalDeadLetters s + 1) s).

(** ** Admission gate *)

(** The outcome of [await req.text()]. *)
Inductive body_result : Type :=
  | BodyText (text : string)
  | BodyFailed (cause : thrown).

Record Request : Type := {
  req_method : string;
  req_pathname : string;
  req_x_trace_id : option string;
  req_body : body_result
}.

(** What one admission reads from its environment: the UUID
    [crypto.randomUUID()] would return, the time [new Date()] gives when the
    record is built, and [performance.now() - start] at the end. *)
Record Ambient : Type := {
  randomUUID : string;
  now : Z;
  elapsedMs : Q
}.

Inductive ResponseBody : Type :=
  | HealthSnapshot
  | MetricsText
  | Text (content : string)
  | AcceptedJson (traceId : string).

Record Response : Type := {
  status : nat;
  x_trace_id : option string;
  body : ResponseBody
}.

Definition basePath : string := "/api".

Definition is_health (req : Request) : bool :=
  ((req_method req =? "GET") && (req_pathname req =? basePath ++ "/health"))%string.

Definition is_metrics (req : Request) : bool :=
  ((req_method req =? "GET") && (req_pathname req =? "/metrics"))%string.

Definition is_events (req : Request) : bool :=
  ((req_method req =? "POST") && (req_pathname req =? basePath ++ "/v1/events"))%string.

(** [req.headers.get("x-trace-id") ?? crypto.randomUUID()] *)
Definition traceIdOf (req : Request) (amb : Ambient) : string :=
  match req_x_trace_id req with
  | Some t => t
  | None => randomUUID amb
  end.

(** The events route up to [await req.text()]. *)
Definition admit_begin (s : State) : State :=
  set_totalReceived (totalReceived s + 1) s.

(** The events route from the point the body promise settles, without the
    [finally] block. *)
Definition admit_settle (cfg : Config) (req : Request) (amb : Ambient)
    (s : State) : State * Response :=
  let traceId := traceIdOf req amb in
  match req_body req with
  | BodyFailed cause =>
      let s1 :=
        enqueueDeadLetter cfg
          {| trace_id := traceId; received_at := now amb;
             method := req_method req; path := req_pathname req;
             payload := None |}
          ("body_read_failed: " ++ formatError cause) s in
      (set_totalRejected (totalRejected s1 + 1) s1,
       {| status := 400; x_trace_id := Some traceId;
          body := Text "Invalid request body" |})
  | BodyText text =>
      let payload := if String.length text =? 0 then None else Some text in
      let record :=
        {| trace_id := traceId; received_at := now amb;
           method := req_method req; path := req_pathname req;
           payload := payload |} in
      if (maxQueueSize cfg <=? Z.of_nat (length (pending s)))%Z
      then
        let s1 := enqueueDeadLetter cfg record "queue_overflow" s in
        (set_totalRejected (totalRejected s1 + 1) s1,
         {| status := 503; x_trace_id := Some traceId;
            body := Text "Overloaded" |})
      else
        let s1 := set_pending (pending s ++ [record]) s in
        (set_totalAccepted (totalAccepted s1 + 1) s1,
         {| status := 202; x_trace_id := Some traceId;
            body := AcceptedJson traceId |})
  end.

(** The rest of the events route: the body of the [try] after the [await],
    then the [finally] block. *)
Definition admit_resume (cfg : Config) (req : Request) (amb : Ambient)
    (s : State) : State * Response :=
  let '(s1, response) := admit_settle cfg req amb s in
  (recordLatency (elapsedMs amb) s1, response).

(** [handleRequest] when nothing else runs while the body is read. *)
Definition handleRequest (cfg : Config) (req : Request) (amb : Ambient)
    (s : State) : State * Response :=
  if is_health req then
    (s, {| status := 200; x_trace_id := None; body := HealthSnapshot |})
  else if is_metrics req then
    (s, {| status := 200; x_trace_id := None; body := MetricsText |})
  else if is_events req then
    admit_resume cfg req amb (admit_begin s)
  else
    (s, {| status := 404; x_trace_id := None; body := Text "Not Found" |}).

(** ** Flush cycles *)

(** The outcome of the awaited SQL insert. *)
Inductive db_result : Type :=
  | Inserted
  | InsertFailed (cause : thrown).

(** [queue.splice(0, n)]: the removed prefix and what stays; a count below
    zero removes nothing. *)
Definition splice0 {A : Type} (n : Z) (queue : list A) : list A * list A :=
  (take (Z.to_nat n) queue, drop (Z.to_nat n) queue).

(** [flushQueue] up to the [await]: the state, and the batch handed to the
    insert ([None] on the early return). *)
Definition flushQueue_begin (cfg : Config) (s : State)
    : State * option (list RequestRecord) :=
  if flushing s || (length (pending s) =? 0) then (s, None)
  else
    let '(batch, rest) := splice0 (batchSize cfg) (pending s) in
    (set_pending rest (set_flushing true s), Some batch).

Definition insert_failed (errorMessage : string) (record : RequestRecord)
    : DeadLetterRecord :=
  {| base := record; error := "insert_failed: " ++ errorMessage |}.

(** The engine refuses the call [f(...args)]: it throws a [RangeError]
    before [f] runs. *)
Definition spread_refused {A : Type} (cfg : Config) (args : list A) : bool :=
  (maxArguments cfg <? Z.of_nat (length args))%Z.

(** [flushQueue] from the point the insert settles; [at_ms] is [Date.now()].
    When the engine refuses [deadLetters.push(...)], the [catch] block ends
    there with nothing appended; the [finally] block runs all the same. *)
Definition flushQueue_resume (cfg : Config) (batch : list RequestRecord)
    (r : db_result) (at_ms : Z) (s : State) : State :=
  let s1 :=
    match r with
    | Inserted => set_lastFlushError None s
    | InsertFailed cause =>
        let errorMessage := formatError cause in
        let s2 := set_totalDbErrors (totalDbErrors s + 1) s in
        let s3 := set_lastFlushError (Some errorMessage) s2 in
        let letters := map (insert_failed errorMessage) batch in
        if spread_refused cfg letters then s3
        else set_deadLetters (deadLetters s3 ++ letters) s3
    end in
  set_flushing false (set_lastFlushAt (Some at_ms) s1).

(** Whether that part of [flushQueue] ends by throwing, so that the promise
    [flushQueue] returned is rejected. *)
Definition flushQueue_resume_throws (cfg : Config) (batch : list RequestRecord)
    (r : db_result) : bool :=
  match r with
  | Inserted => false
  | InsertFailed cause =>
      spread_refused cfg (map (insert_failed (formatError cause)) batch)
  end.

(** [flushQueue] when nothing else runs while the insert is awaited. *)
Definition flushQueue (cfg : Config) (r : db_result) (at_ms : Z) (s : State) : State :=
  match flushQueue_begin cfg s with
  | (s1, Some batch) => flushQueue_resume cfg batch r at_ms s1
  | (s1, None) => s1
  end.

Definition flushQueue_throws (cfg : Config) (r : db_result) (s : State) : bool :=
  match flushQueue_begin cfg s with
  | (_, Some batch) => flushQueue_resume_throws cfg batch r
  | (_, None) => false
  end.

Definition flushDeadLetters_begin (cfg : Config) (s : State)
    : State * option (list DeadLetterRecord) :=
  if deadFlushing s || (length (deadLetters s) =? 0) then (s, None)
  else
    let '(batch, rest) := splice0 (batchSize cfg) (deadLetters s) in
    (set_deadLetters rest (set_deadFlushing true s), Some batch).

Definition requeued (errorMessage : string) (record : DeadLetterRecord)
    : DeadLetterRecord :=
  {| base := base record;
     error := slice1000
                (error record ++ "; dead_letter_insert_failed: " ++ errorMessage) |}.

(** [flushDeadLetters] from the point the insert settles.  When the batch
    fits and the engine refuses [deadLetters.unshift(...)], the [catch] block
    ends there with nothing put back and nothing logged. *)
Definition flushDeadLetters_resume (cfg : Config) (batch : list DeadLetterRecord)
    (r : db_result) (at_ms : Z) (s : State) : State :=
  let s1 :=
    match r with
    | Inserted => set_lastDeadFlushError None s
    | InsertFailed cause =>
        let errorMessage := formatError cause in
        let s2 := set_totalDbErrors (totalDbErrors s + 1) s in
        let s3 := set_lastDeadFlushError (Some errorMessage) s2 in
        let requeue := map (requeued errorMessage) batch in
        if (Z.of_nat (length (deadLetters s3) + length requeue)
              <=? maxDeadQueueSize cfg)%Z
        then
          if spread_refused cfg requeue then s3
          else set_deadLetters (requeue ++ deadLetters s3) s3
        else console_error overflow_dropping_records s3
    end in
  set_deadFlushing false (set_lastDeadFlushAt (Some at_ms) s1).

(** Whether that part of [flushDeadLetters] ends by throwing. *)
Definition flushDeadLetters_resume_throws (cfg : Config)
    (batch : list DeadLetterRecord) (r : db_result) (s : State) : bool :=
  match r with
  | Inserted => false
  | InsertFailed cause =>
      let requeue := map (requeued (formatError cause)) batch in
      (Z.of_nat (length (deadLetters s) + length requeue)
         <=? maxDeadQueueSize cfg)%Z
      && spread_refused cfg requeue
  end.

Definition flushDeadLetters (cfg : Config) (r : db_result) (at_ms : Z)
    (s : State) : State :=
  match flushDeadLetters_begin cfg s with
  | (s1, Some batch) => flushDeadLetters_resume cfg batch r at_ms s1
  | (s1, None) => s1
  end.

Definition flushDeadLetters_throws (cfg : Config) (r : db_result) (s : State)
    : bool :=
  match flushDeadLetters_begin cfg s with
  | (s1, Some batch) => flushDeadLetters_resume_throws cfg batch r s1
  | (_, None) => false
  end.

(** ** Interleavings

    Everything runs on one thread, so the functions above interleave only at
    their [await]s.  A [World] is the module state together with the
    continuations that are suspended: the admissions waiting for their body,
    and the batch each flush cycle is waiting on.

    When a flush called by a timer ends by throwing, its promise is rejected
    and nobody handles it; what the runtime then does to the process is not
    the program's.  The run may go on in the model, so the reachable worlds
    include every world the server reaches. *)

Record World : Type := {
  st : State;
  awaiting_body : list Request;
  awaiting_insert : option (list RequestRecord);
  awaiting_dead_insert : option (list DeadLetterRecord)
}.

Definition initialWorld : World :=
  {| st := initialState; awaiting_body := [];
     awaiting_insert := None; awaiting_dead_insert := None |}.

Definition with_st (s : State) (w : World) : World :=
  {| st := s; awaiting_body := awaiting_body w;
     awaiting_insert := awaiting_insert w;
     awaiting_dead_insert := awaiting_dead_insert w |}.

Inductive step (cfg : Config) : World -> World -> Prop :=
  | step_other (req : Request) (amb : Ambient) (w : World) :
      is_events req = false ->
      step cfg w (with_st (handleRequest cfg req amb (st w)).1 w)
  | step_admit_begin (req : Request) (w : World) :
      is_events req = true ->
      step cfg w
        {| st := admit_begin (st w);
           awaiting_body := awaiting_body w ++ [req];
           awaiting_insert := awaiting_insert w;
           awaiting_dead_insert := awaiting_dead_insert w |}
  | step_admit_resume (req : Request) (amb : Ambient) (before after : list Request)
      (w : World) :
      awaiting_body w = before ++ req :: after ->
      step cfg w
        {| st := (admit_resume cfg req amb (st w)).1;
           awaiting_body := before ++ after;
           awaiting_insert := awaiting_insert w;
           awaiting_dead_insert := awaiting_dead_insert w |}
  | step_flush_begin (w : World) :
      step cfg w
        {| st := (flushQueue_begin cfg (st w)).1;
           awaiting_body := awaiting_body w;
           awaiting_insert :=
             match (flushQueue_begin cfg (st w)).2 with
             | Some batch => Some batch
             | None => awaiting_insert w
             end;
           awaiting_dead_insert := awaiting_dead_insert w |}
  | step_flush_resume (batch : list RequestRecord) (r : db_result) (at_ms : Z)
      (w : World) :
      awaiting_insert w = Some batch ->
      step cfg w
        {| st := flushQueue_resume cfg batch r at_ms (st w);
           awaiting_body := awaiting_body w;
           awaiting_insert := None;
           awaiting_dead_insert := awaiting_dead_insert w |}
  | step_dead_flush_begin (w : World) :
      step cfg w
        {| st := (flushDeadLetters_begin cfg (st w)).1;
           awaiting_body := awaiting_body w;
           awaiting_insert := awaiting_insert w;
           awaiting_dead_insert :=
             match (flushDeadLetters_begin cfg (st w)).2 with
             | Some batch => Some batch
             | None => awaiting_dead_insert w
             end |}
  | step_dead_flush_resume (batch : list DeadLetterRecord) (r : db_result)
      (at_ms : Z) (w : World) :
      awaiting_dead_insert w = Some batch ->
      step cfg w
        {| st := flushDeadLetters_resume cfg batch r at_ms (st w);
           awaiting_body := awaiting_body w;
           awaiting_insert := awaiting_insert w;
           awaiting_dead_insert := None |}.

Definition reachable (cfg : Config) (w : World) : Prop :=
  rtc (step cfg) initialWorld w.

(** ** Vocabulary of the specification *)

(** The count of samples in the buckets up to and including index [i]. *)
Definition cumulativeUpTo (i : nat) (s : State) : nat :=
  sum_list (take (S i) (latencyHistogram s)).

(** A well-formed event: a [POST] to the events route whose body reads. *)
Definition well_formed (req : Request) : Prop :=
  is_events req = true /\ exists text, req_body req = BodyText text.

(** The histogram has one slot per bound and one more for the overflow. *)
Definition histogram_shape (s : State) : Prop :=
  length (latencyHistogram s) = length latencyBucketsMs + 1.

(** [i] is the slot [recordLatency] picks for [v]: the first bound, in the
    order of the table, that is at least [v]; the overflow slot when [v] is
    above the largest bound. *)
Definition bucket_of (v : Q) (i : nat) : Prop :=
  (exists bound : Z,
      latencyBucketsMs !! i = Some bound /\ (v <= inject_Z bound)%Q /\
      forall (j : nat) (smaller : Z),
        j < i -> latencyBucketsMs !! j = Some smaller ->
        (inject_Z smaller < v)%Q)
  \/ (i = length latencyBucketsMs /\ (inject_Z 10000 < v)%Q).

(** The cumulative count at slot [i] has reached [p] times the sample count. *)
Definition reaches (p : Q) (s : State) (i : nat) : Prop :=
  (inject_Z (Z.of_nat (latencyCount s)) * p
     <= inject_Z (Z.of_nat (cumulativeUpTo i s)))%Q.

(** [b] is the smallest bound of the table whose cumulative count reaches
    [p] times the sample count. *)
Definition smallest_reaching_bound (p : Q) (s : State) (b : Z) : Prop :=
  exists i : nat,
    latencyBucketsMs !! i = Some b /\ reaches p s i /\
    forall (j : nat) (b' : Z),
      latencyBucketsMs !! j = Some b' -> reaches p s j -> (b <= b')%Z.

(** The request is one the gate turns away and routes to the Dead-Letter
    Queue: its body cannot be read, or the Record Queue is at capacity. *)
Definition rejected_request (cfg : Config) (req : Request) (s : State) : Prop :=
  is_events req = true /\
  ((exists cause, req_body req = BodyFailed cause) \/
   (maxQueueSize cfg <= Z.of_nat (length (pending s)))%Z).

(** The threshold [percentile] compares with: the product of the sample
    count and [p], as the source's multiplication of two doubles gives it. *)
Definition threshold_of (p : Q) (s : State) : Q :=
  round_double (inject_Z (Z.of_nat (latencyCount s)) * p).

(** The cumulative count at slot [i] has reached that threshold. *)
Definition reaches_double (p : Q) (s : State) (i : nat) : Prop :=
  (threshold_of p s <= inject_Z (Z.of_nat (cumulativeUpTo i s)))%Q.

(** [b] is the smallest bound of the table whose cumulative count reaches
    the threshold. *)
Definition smallest_bound_reaching_double (p : Q) (s : State) (b : Z) : Prop :=
  exists i : nat,
    latencyBucketsMs !! i = Some b /\ reaches_double p s i /\
    forall (j : nat) (b' : Z),
      latencyBucketsMs !! j = Some b' -> reaches_double p s j -> (b <= b')%Z.

(** ** Shutdown and repeated flush cycles *)

(** How [shutdown] ends: [process.exit(0)] is reached, or one of the awaited
    promises is rejected and the promise of [shutdown] with it, before the
    exit. *)
Inductive shutdown_end : Type :=
  | Exited
  | Aborted.

(** [shutdown] when nothing else runs meanwhile: one call of [flushQueue],
    then one call of [flushDeadLetters], then [sql.end]; [r1], [r2] are the
    outcomes of the two inserts, [t1], [t2] the clock readings, and [closed]
    says whether [sql.end] resolves.  An [await] on a rejected promise throws,
    and nothing after it runs. *)
Definition shutdown (cfg : Config) (r1 : db_result) (t1 : Z) (r2 : db_result)
    (t2 : Z) (closed : bool) (s : State) : State * shutdown_end :=
  let s1 := flushQueue cfg r1 t1 s in
  if flushQueue_throws cfg r1 s then (s1, Aborted)
  else
    let s2 := flushDeadLetters cfg r2 t2 s1 in
    if flushDeadLetters_throws cfg r2 s1 then (s2, Aborted)
    else if closed then (s2, Exited)
    else (s2, Aborted).

(** The timer of [flushQueue] firing once per element of [rounds], each call
    running to its end before the next; an element gives the outcome of the
    insert and the clock reading of that call. *)
Definition flushCycles (cfg : Config) (rounds : list (db_result * Z))
    (s : State) : State :=
  foldl (fun acc round => flushQueue cfg round.1 round.2 acc) s rounds.

(** ** The histogram section of [renderMetrics] *)

(** The one-character string made of a double quote. *)
Definition dquote : string := String (Ascii.ascii_of_nat 34) EmptyString.

(** The [for] loop of [renderMetrics], entered at slot [i]: the lines it
    pushes, in order.  A count and a bound are whole numbers, which a
    template literal prints in decimal. *)
Fixpoint bucketLines_loop (i cumulative : nat) (rest : list nat) : list string :=
  match rest with
  | [] => []
  | count :: rest' =>
      let cumulative := cumulative + count in
      let upperBound :=
        if i <? length latencyBucketsMs
        then pretty (nth i latencyBucketsMs 0%Z)
        else "+Inf" in
      ("api_request_latency_ms_bucket{le=" ++ dquote ++ upperBound ++ dquote
         ++ "} " ++ pretty cumulative)%string
      :: bucketLines_loop (S i) cumulative rest'
  end.

Definition bucketLines (s : State) : list string :=
  bucketLines_loop 0 0 (latencyHistogram s).

(** The line [api_request_latency_ms_count] of [renderMetrics]. *)
Definition countLine (s : State) : string :=
  "api_request_latency_ms_count " ++ pretty (latencyCount s).

(** The bucket line [renderMetrics] prints for the label [le] and the
    cumulative count [n]. *)
Definition bucketLine (le : string) (n : nat) : string :=
  "api_request_latency_ms_bucket{le=" ++ dquote ++ le ++ dquote ++ "} "
    ++ pretty n.

(** ** Samples *)

(** The state after recording the samples [vs], oldest first. *)
Definition recordAll (vs : list Q) (s : State) : State :=
  foldl (fun acc v => recordLatency v acc) s vs.

(** How many of the samples [vs] are at most [b]. *)
Fixpoint count_le (b : Z) (vs : list Q) : nat :=
  match vs with
  | [] => 0
  | v :: rest => (if Qle_bool v (inject_Z b) then 1 else 0) + count_le b rest
  end.

(** ** Runs in which no insert of the Record Queue fails *)

(** The step from [w] to [w'] is the failure branch of [flushQueue]. *)
Definition failed_flush_step (cfg : Config) (w w' : World) : Prop :=
  exists (batch : list RequestRecord) (cause : thrown) (at_ms : Z),
    awaiting_insert w = Some batch /\
    st w' = flushQueue_resume cfg batch (InsertFailed cause) at_ms (st w).

Definition calm_step (cfg : Config) (w w' : World) : Prop :=
  step cfg w w' /\ ~ failed_flush_step cfg w w'.

(** ** Stored records *)

(** A record as the events route builds it: method and path of that route,
    and a payload that is null or a non-empty text. *)
Definition events_record (record : RequestRecord) : Prop :=
  method record = "POST" /\ path record = "/api/v1/events" /\
  payload record <> Some "".

(** Every record held in memory, queued or in flight, is an events record. *)
Definition only_events_records (w : World) : Prop :=
  Forall events_record (pending (st w)) /\
  Forall (fun dl => events_record (base dl)) (deadLetters (st w)) /\
  (forall batch, awaiting_insert w = Some batch -> Forall events_record batch) /\
  (forall batch, awaiting_dead_insert w = Some batch ->
                 Forall (fun dl => events_record (base dl)) batch).

(** ** Runs with the settled inserts counted *)

(** The number of records in the batch whose insert [flushQueue] awaits. *)
Definition in_flight (w : World) : nat :=
  match awaiting_insert w with
  | Some batch => length batch
  | None => 0
  end.

(** [counted_run cfg w inserted failed]: the server can reach [w] by a run in
    which the inserts of the Record Queue that succeeded carried [inserted]
    records in all, and those that failed carried [failed] records.  A step
    that is not the settling of such an insert leaves the awaited batch in
    place or starts to await one. *)
Inductive counted_run (cfg : Config) : World -> nat -> nat -> Prop :=
  | counted_start : counted_run cfg initialWorld 0 0
  | counted_quiet (w w' : World) (inserted failed : nat) :
      counted_run cfg w inserted failed ->
      step cfg w w' ->
      awaiting_insert w = None \/ awaiting_insert w' <> None ->
      counted_run cfg w' inserted failed
  | counted_inserted (w : World) (batch : list RequestRecord) (at_ms : Z)
      (inserted failed : nat) :
      counted_run cfg w inserted failed ->
      awaiting_insert w = Some batch ->
      counted_run cfg
        {| st := flushQueue_resume cfg batch Inserted at_ms (st w);
           awaiting_body := awaiting_body w;
           awaiting_insert := None;
           awaiting_dead_insert := awaiting_dead_insert w |}
        (inserted + length batch) failed
  | counted_failed (w : World) (batch : list RequestRecord) (cause : thrown)
      (at_ms : Z) (inserted failed : nat) :
      counted_run cfg w inserted failed ->
      awaiting_insert w = Some batch ->
      counted_run cfg
        {| st := flushQueue_resume cfg batch (InsertFailed cause) at_ms (st w);
           awaiting_body := awaiting_body w;
           awaiting_insert := None;
           awaiting_dead_insert := awaiting_dead_insert w |}
        inserted (failed + length batch).

(** ** Concrete requests, configurations and states *)

(** A request on the events route whose body reads as [text]. *)
Definition post (text : string) : Request :=
  {| req_method := "POST"; req_pathname := "/api/v1/events";
     req_x_trace_id := None; req_body := BodyText text |}.

(** Batches longer than the engine takes in one call: 700000 records held
    in the Record Queue, and 70000 in a Dead-Letter Queue of 100000 places.
    The totals are left as at the start; no flush reads them. *)
Definition floodConfig : Config :=
  {| batchSize := 700000; maxQueueSize := 700000; maxDeadQueueSize := 100000;
     maxArguments := 65536 |}.

Definition floodPending : State :=
  set_pending
    (replicate (Z.to_nat 700000)
       {| trace_id := "t"; received_at := 1700000000000%Z; method := "POST";
          path := "/api/v1/events"; payload := Some "x" |})
    initialState.

Definition floodDeadConfig : Config :=
  {| batchSize := 70000; maxQueueSize := 200000; maxDeadQueueSize := 100000;
     maxArguments := 65536 |}.

Definition floodDead : State :=
  set_deadLetters
    (replicate (Z.to_nat 70000)
       {| base := {| trace_id := "t"; received_at := 1700000000000%Z;
                     method := "POST"; path := "/api/v1/events";
                     payload := Some "x" |};
          error := "queue_overflow" |})
    initialState.

(** A request on the events route whose body cannot be read. *)
Definition unreadable : Request :=
  {| req_method := "POST"; req_pathname := "/api/v1/events";
     req_x_trace_id := Some "t-9"; req_body := BodyFailed (ThrownError "aborted") |}.

Definition ambient (uuid : string) : Ambient :=
  {| randomUUID := uuid; now := 1700000000000%Z; elapsedMs := 3 # 10 |}.

Definition smallConfig : Config :=
  {| batchSize := 1000; maxQueueSize := 2; maxDeadQueueSize := 1;
     maxArguments := 65536 |}.

Definition noDeadLetterConfig : Config :=
  {| batchSize := 1000; maxQueueSize := 2; maxDeadQueueSize := 0;
     maxArguments := 65536 |}.

(** One record per batch. *)
Definition oneAtATime : Config :=
  {| batchSize := 1; maxQueueSize := 2; maxDeadQueueSize := 1;
     maxArguments := 65536 |}.

(** The state after the four samples 1, 3, 1000 and 50000. *)
Definition sampleState : State :=
  foldl (fun acc x => recordLatency x acc) initialState [1; 3; 1000; 50000]%Q.

(** The state after one sample above every bound. *)
Definition overflowOnly : State := recordLatency 50000 initialState.

(** Two requests accepted from the start. *)
Definition twoPending : State :=
  (handleRequest smallConfig (post "b") (ambient "u2")
     (handleRequest smallConfig (post "a") (ambient "u1") initialState).1).1.

(** One request with an unreadable body, rejected from the start. *)
Definition oneDead : State :=
  (handleRequest smallConfig unreadable (ambient "u") initialState).1.

(** The state after a failed flush of two accepted records. *)
Definition afterFailedFlush : State :=
  flushQueue smallConfig (InsertFailed (ThrownError "down")) 7%Z twoPending.

(** Two requests are accepted, then the flush of both fails. *)
Definition overfullWorld : World :=
  {| st := afterFailedFlush; awaiting_body := [];
     awaiting_insert := None; awaiting_dead_insert := None |}.

(** * Proofs *)

(** ** Doubles *)

Section DoubleRounding.

Local Open Scope Q_scope.

Ltac Qcmp H :=
  first [ apply (proj2 (Qeq_alt _ _)) in H
        | apply (proj2 (Qlt_alt _ _)) in H
        | apply (proj2 (Qgt_alt _ _)) in H ].

Lemma rne_floor (q : Q) : (Qfloor q <= rne q <= Qfloor q + 1)%Z.
Proof.
  unfold rne. destruct (Qcompare _ _); [destruct (Z.even _)| |]; lia.
Qed.

Lemma rne_Z (z : Z) : rne (inject_Z z) = z.
Proof.
  unfold rne. rewrite Qfloor_Z.
  assert (H : Qcompare (inject_Z z - inject_Z z) (1 # 2) = Lt).
  { apply (proj1 (Qlt_alt _ _)). generalize (inject_Z z). intros x. lra. }
  rewrite H. reflexivity.
Qed.

Lemma rne_comp (p q : Q) : p == q -> rne p = rne q.
Proof.
  intros H. unfold rne. rewrite (Qfloor_comp _ _ H).
  assert (Hc : Qcompare (p - inject_Z (Qfloor q)) (1 # 2)
               = Qcompare (q - inject_Z (Qfloor q)) (1 # 2)).
  { apply Qcompare_comp; [rewrite H|]; reflexivity. }
  rewrite Hc. reflexivity.
Qed.

Lemma rne_mono (p q : Q) : p <= q -> (rne p <= rne q)%Z.
Proof.
  intros H. pose proof (Qfloor_resp_le _ _ H) as Hf.
  destruct (Z.eq_dec (Qfloor p) (Qfloor q)) as [E|E].
  - unfold rne. rewrite E.
    destruct (Qcompare (p - inject_Z (Qfloor q)) (1 # 2)) eqn:Hp;
      destruct (Qcompare (q - inject_Z (Qfloor q)) (1 # 2)) eqn:Hq;
      try (destruct (Z.even (Qfloor q))); try lia; exfalso;
      Qcmp Hp; Qcmp Hq; revert Hp Hq;
      generalize (inject_Z (Qfloor q)); intros x Hp Hq; lra.
  - pose proof (rne_floor p). pose proof (rne_floor q). lia.
Qed.

Lemma rne_le_Z (q : Q) (n : Z) : q <= inject_Z n -> (rne q <= n)%Z.
Proof. intros H. rewrite <- (rne_Z n). apply rne_mono, H. Qed.

Lemma rne_ge_Z (q : Q) (n : Z) : inject_Z n <= q -> (n <= rne q)%Z.
Proof. intros H. rewrite <- (rne_Z n). apply rne_mono, H. Qed.

(** Powers of two. *)

Lemma pow2_pos (k : Z) : 0 < 2 ^ k.
Proof. apply Qpower_0_lt. reflexivity. Qed.

Lemma pow2_plus (a b : Z) : 2 ^ (a + b) == 2 ^ a * 2 ^ b.
Proof. apply Qpower_plus. discriminate. Qed.

Lemma pow2_le (a b : Z) : (a <= b)%Z -> 2 ^ a <= 2 ^ b.
Proof. intros H. apply Qpower_le_compat_l; [exact H | discriminate]. Qed.

Lemma pow2_lt_inv (a b : Z) : 2 ^ a < 2 ^ b -> (a < b)%Z.
Proof.
  intros H. destruct (Z.lt_ge_cases a b) as [Hlt|Hge]; [exact Hlt|].
  apply pow2_le in Hge. lra.
Qed.

Lemma pow2_inject (n : Z) : (0 <= n)%Z -> inject_Z (2 ^ n) == 2 ^ n.
Proof. intros H. rewrite Zpower_Qpower by exact H. reflexivity. Qed.

Lemma pow2_cancel (x : Q) (e : Z) : x * 2 ^ (- e) * 2 ^ e == x.
Proof.
  rewrite <- Qmult_assoc, <- pow2_plus.
  replace (- e + e)%Z with 0%Z by lia. simpl. ring.
Qed.

(** The floor of the binary logarithm. *)

Lemma ilog2_spec (x : Q) : 0 < x -> 2 ^ ilog2 x <= x /\ x < 2 ^ (ilog2 x + 1).
Proof.
  intros Hx. destruct x as [a b]. unfold ilog2. cbn [Qnum Qden].
  assert (Ha : (0 < a)%Z).
  { unfold Qlt in Hx. cbn in Hx. lia. }
  set (la := Z.log2 a). set (lb := Z.log2 (Zpos b)).
  destruct (Z.log2_spec a Ha) as [Ha1 Ha2]. fold la in Ha1, Ha2.
  destruct (Z.log2_spec (Zpos b) ltac:(lia)) as [Hb1 Hb2]. fold lb in Hb1, Hb2.
  assert (Hla : (0 <= la)%Z) by apply Z.log2_nonneg.
  assert (Hlb : (0 <= lb)%Z) by apply Z.log2_nonneg.
  assert (Hx' : a # b == inject_Z a / inject_Z (Zpos b)) by apply Qmake_Qdiv.
  assert (Hbpos : 0 < inject_Z (Zpos b)) by reflexivity.
  assert (HA1 : 2 ^ la <= inject_Z a).
  { rewrite <- pow2_inject by lia. rewrite <- Zle_Qle. exact Ha1. }
  assert (HA2 : inject_Z a < 2 ^ (la + 1)).
  { rewrite <- pow2_inject by lia. rewrite <- Zlt_Qlt.
    replace (la + 1)%Z with (Z.succ la) by lia. exact Ha2. }
  assert (HB1 : 2 ^ lb <= inject_Z (Zpos b)).
  { rewrite <- pow2_inject by lia. rewrite <- Zle_Qle. exact Hb1. }
  assert (HB2 : inject_Z (Zpos b) < 2 ^ (lb + 1)).
  { rewrite <- pow2_inject by lia. rewrite <- Zlt_Qlt.
    replace (lb + 1)%Z with (Z.succ lb) by lia. exact Hb2. }
  (* x * b = a *)
  assert (Hmul : (a # b) * inject_Z (Zpos b) == inject_Z a).
  { rewrite Hx'. field. intros H. rewrite H in Hbpos. discriminate. }
  assert (Hup : a # b < 2 ^ (la - lb + 1)).
  { replace (la - lb + 1)%Z with ((la + 1) + - lb)%Z by lia.
    rewrite pow2_plus.
    pose proof (pow2_cancel 1 lb) as Hc. pose proof (pow2_pos (- lb)) as Hp.
    pose proof (pow2_pos lb) as Hp'. pose proof (pow2_pos (la + 1)).
    nra. }
  assert (Hlow : 2 ^ (la - lb - 1) < a # b).
  { replace (la - lb - 1)%Z with (la + - (lb + 1))%Z by lia.
    rewrite pow2_plus.
    pose proof (pow2_cancel 1 (lb + 1)) as Hc.
    pose proof (pow2_pos (- (lb + 1))) as Hp.
    pose proof (pow2_pos (lb + 1)) as Hp'. pose proof (pow2_pos la).
    nra. }
  destruct (Qle_bool (2 ^ (la - lb)) (a # b)) eqn:Ht.
  - apply Qle_bool_iff in Ht. split; [exact Ht | exact Hup].
  - split.
    + apply Qlt_le_weak. exact Hlow.
    + replace (la - lb - 1 + 1)%Z with (la - lb)%Z by lia.
      apply Qnot_le_lt. intros H. apply Qle_bool_iff in H. congruence.
Qed.

Lemma ilog2_mono (x y : Q) : 0 < x -> x <= y -> (ilog2 x <= ilog2 y)%Z.
Proof.
  intros Hx Hxy.
  destruct (ilog2_spec x Hx) as [Hx1 _].
  destruct (ilog2_spec y ltac:(lra)) as [_ Hy2].
  assert (H : 2 ^ ilog2 x < 2 ^ (ilog2 y + 1)) by lra.
  apply pow2_lt_inv in H. lia.
Qed.

Lemma dexp_mono (x y : Q) : 0 < x -> x <= y -> (dexp x <= dexp y)%Z.
Proof. intros Hx Hxy. unfold dexp. pose proof (ilog2_mono x y Hx Hxy). lia. Qed.

(** The scaled value is below [2^53], and at least [2^52] unless the
    exponent is the least one. *)
Lemma scaled_range (x : Q) :
  0 < x ->
  x * 2 ^ (- dexp x) < inject_Z (2 ^ 53) /\
  ((-1074 < dexp x)%Z -> inject_Z (2 ^ 52) <= x * 2 ^ (- dexp x)).
Proof.
  intros Hx. destruct (ilog2_spec x Hx) as [H1 H2].
  pose proof (pow2_pos (- dexp x)) as Hp.
  split.
  - rewrite pow2_inject by lia.
    assert (Hle : 2 ^ (ilog2 x + 1) * 2 ^ (- dexp x) <= 2 ^ 53).
    { rewrite <- pow2_plus. apply pow2_le. unfold dexp. lia. }
    nra.
  - intros Hnorm. rewrite pow2_inject by lia.
    assert (He : dexp x = (ilog2 x - 52)%Z) by (unfold dexp in *; lia).
    assert (Heq : 2 ^ ilog2 x * 2 ^ (- dexp x) == 2 ^ 52).
    { rewrite <- pow2_plus. rewrite He.
      replace (ilog2 x + - (ilog2 x - 52))%Z with 52%Z by lia. reflexivity. }
    nra.
Qed.

Lemma round_pos_nonneg (x : Q) : 0 < x -> 0 <= round_pos x.
Proof.
  intros Hx. unfold round_pos.
  pose proof (pow2_pos (dexp x)) as Hp. pose proof (pow2_pos (- dexp x)) as Hn.
  assert (H0 : (0 <= rne (x * 2 ^ (- dexp x)))%Z).
  { apply rne_ge_Z. change (inject_Z 0) with 0. nra. }
  apply Qmult_le_0_compat; [|lra].
  change 0 with (inject_Z 0). rewrite <- Zle_Qle. exact H0.
Qed.

Lemma round_pos_mono (x y : Q) : 0 < x -> x <= y -> round_pos x <= round_pos y.
Proof.
  intros Hx Hxy. assert (Hy : 0 < y) by lra.
  pose proof (dexp_mono x y Hx Hxy) as He. unfold round_pos.
  destruct (Z.eq_dec (dexp x) (dexp y)) as [E|E].
  - rewrite E. pose proof (pow2_pos (dexp y)) as Hp.
    pose proof (pow2_pos (- dexp y)) as Hn.
    assert (Hr : (rne (x * 2 ^ (- dexp y)) <= rne (y * 2 ^ (- dexp y)))%Z).
    { apply rne_mono. nra. }
    rewrite Zle_Qle in Hr. nra.
  - destruct (scaled_range x Hx) as [Hx53 _].
    destruct (scaled_range y Hy) as [_ Hy52].
    assert (Hnorm : (-1074 < dexp y)%Z) by (unfold dexp in *; lia).
    specialize (Hy52 Hnorm).
    assert (Hrx : (rne (x * 2 ^ (- dexp x)) <= 2 ^ 53)%Z)
      by (apply rne_le_Z; lra).
    assert (Hry : (2 ^ 52 <= rne (y * 2 ^ (- dexp y)))%Z)
      by (apply rne_ge_Z; exact Hy52).
    rewrite Zle_Qle in Hrx. rewrite Zle_Qle in Hry.
    rewrite pow2_inject in Hrx, Hry by lia.
    pose proof (pow2_pos (dexp x)) as Hpx. pose proof (pow2_pos (dexp y)) as Hpy.
    assert (Hstep : 2 ^ 53 * 2 ^ dexp x <= 2 ^ 52 * 2 ^ dexp y).
    { rewrite <- !pow2_plus. apply pow2_le. lia. }
    apply Qle_trans with (2 ^ 53 * 2 ^ dexp x); [nra|].
    apply Qle_trans with (2 ^ 52 * 2 ^ dexp y); [exact Hstep | nra].
Qed.

Lemma round_double_pos (x : Q) : 0 < x -> round_double x = round_pos x.
Proof.
  intros H. unfold round_double.
  apply (proj1 (Qgt_alt _ _)) in H. rewrite H. reflexivity.
Qed.

Lemma round_double_neg (x : Q) : x < 0 -> round_double x = - round_pos (- x).
Proof.
  intros H. unfold round_double.
  apply (proj1 (Qlt_alt _ _)) in H. rewrite H. reflexivity.
Qed.

Lemma round_double_zero (x : Q) : x == 0 -> round_double x = 0.
Proof.
  intros H. unfold round_double.
  apply (proj1 (Qeq_alt _ _)) in H. rewrite H. reflexivity.
Qed.

(** Rounding to the nearest double keeps the order. *)
Lemma round_double_mono (x y : Q) : x <= y -> round_double x <= round_double y.
Proof.
  intros Hxy.
  destruct (Q_dec x 0) as [[Hx|Hx]|Hx]; destruct (Q_dec y 0) as [[Hy|Hy]|Hy];
    try (exfalso; lra).
  - rewrite (round_double_neg x Hx), (round_double_neg y Hy).
    pose proof (round_pos_mono (- y) (- x) ltac:(lra) ltac:(lra)). lra.
  - rewrite (round_double_neg x Hx), (round_double_pos y Hy).
    pose proof (round_pos_nonneg (- x) ltac:(lra)).
    pose proof (round_pos_nonneg y Hy). lra.
  - rewrite (round_double_neg x Hx), (round_double_zero y Hy).
    pose proof (round_pos_nonneg (- x) ltac:(lra)). lra.
  - rewrite (round_double_pos x Hx), (round_double_pos y Hy).
    apply round_pos_mono; assumption.
  - rewrite (round_double_zero x Hx), (round_double_pos y Hy).
    apply round_pos_nonneg, Hy.
  - rewrite (round_double_zero x Hx), (round_double_zero y Hy). lra.
Qed.

(** A whole number below [2^53] is a double. *)
Lemma round_double_Z (n : Z) :
  (0 <= n < 2 ^ 53)%Z -> round_double (inject_Z n) == inject_Z n.
Proof.
  intros [H0 H53]. destruct (Z.eq_dec n 0%Z) as [->|Hn].
  - rewrite round_double_zero; reflexivity.
  - assert (Hpos : 0 < inject_Z n).
    { change 0 with (inject_Z 0). rewrite <- Zlt_Qlt. lia. }
    rewrite (round_double_pos _ Hpos). unfold round_pos.
    destruct (ilog2_spec _ Hpos) as [Hl _].
    assert (He : (dexp (inject_Z n) <= 0)%Z).
    { assert (H : 2 ^ ilog2 (inject_Z n) < 2 ^ 53).
      { apply Qle_lt_trans with (inject_Z n); [exact Hl|].
        rewrite <- pow2_inject by lia. rewrite <- Zlt_Qlt. exact H53. }
      apply pow2_lt_inv in H. unfold dexp. lia. }
    set (e := dexp (inject_Z n)) in *.
    assert (Hint : inject_Z n * 2 ^ (- e) == inject_Z (n * 2 ^ (- e))).
    { rewrite inject_Z_mult, pow2_inject by lia. reflexivity. }
    rewrite (rne_comp _ _ Hint), rne_Z, inject_Z_mult, pow2_inject by lia.
    apply pow2_cancel.
Qed.

Lemma round_double_le_Z (x : Q) (n : Z) :
  (0 <= n < 2 ^ 53)%Z -> x <= inject_Z n -> round_double x <= inject_Z n.
Proof.
  intros Hn Hx. rewrite <- (round_double_Z n Hn). apply round_double_mono, Hx.
Qed.

End DoubleRounding.

(** ** Strings *)

Lemma length_substring_0 (n : nat) (s : string) :
  String.length (substring 0 n s) <= n.
Proof.
  revert s; induction n as [|n IH]; intros [|c s]; simpl; try lia.
  specialize (IH s); lia.
Qed.

Lemma length_slice1000 (s : string) : String.length (slice1000 s) <= 1000.
Proof. apply length_substring_0. Qed.

(** ** [findIndex] *)

Lemma findIndex_Some {A : Type} (p : A -> bool) (l : list A) (i : nat) :
  findIndex p l = Some i ->
  (exists x, l !! i = Some x /\ p x = true) /\
  (forall j y, j < i -> l !! j = Some y -> p y = false).
Proof.
  revert i; induction l as [|x l IH]; intros i; simpl; [discriminate|].
  destruct (p x) eqn:Hx.
  - intros [= <-]. split; [exists x; auto | intros j y Hj; lia].
  - destruct (findIndex p l) as [k|]; simpl; [|discriminate].
    intros [= <-]. destruct (IH k eq_refl) as [Hk Hbefore].
    split; [exact Hk|].
    intros [|j] y Hj; simpl.
    + intros [= <-]; exact Hx.
    + apply Hbefore; lia.
Qed.

Lemma findIndex_None {A : Type} (p : A -> bool) (l : list A) :
  findIndex p l = None -> forall i x, l !! i = Some x -> p x = false.
Proof.
  induction l as [|x l IH]; simpl; intros H i y; [destruct i; discriminate|].
  destruct (p x) eqn:Hx; [discriminate|].
  destruct (findIndex p l); [discriminate|].
  destruct i as [|i]; simpl; [intros [= <-]; exact Hx | apply IH; reflexivity].
Qed.

(** ** The table of bounds *)

Lemma buckets_length : length latencyBucketsMs = 13.
Proof. reflexivity. Qed.

Lemma buckets_increasing (i j : nat) (bi bj : Z) :
  i <= j -> latencyBucketsMs !! i = Some bi -> latencyBucketsMs !! j = Some bj ->
  (bi <= bj)%Z.
Proof.
  intros Hij Hi Hj.
  assert (Hlen : j < 13) by (apply lookup_lt_Some in Hj; exact Hj).
  do 13 (destruct j as [|j]; [
    do 13 (destruct i as [|i]; [
      simpl in Hi, Hj; injection Hi as <-; injection Hj as <-; lia |]);
    lia |]).
  lia.
Qed.

Lemma not_Qle_bool (x y : Q) : Qle_bool x y = false -> (y < x)%Q.
Proof.
  intros H. apply Qnot_le_lt. intros Hle.
  apply Qle_bool_iff in Hle. congruence.
Qed.

(** ** Latency recorder *)

Lemma recordLatency_shape (v : Q) (s : State) :
  histogram_shape s -> histogram_shape (recordLatency v s).
Proof.
  unfold histogram_shape, recordLatency. intros H.
  destruct (findIndex _ _); simpl; rewrite length_alter; exact H.
Qed.

Lemma initialState_shape : histogram_shape initialState.
Proof. reflexivity. Qed.

(** C7: [recordLatency v] adds one to exactly one slot of the histogram, the
    slot of the first bound of the table that is at least [v] (so a value
    equal to a bound lands in that bound's slot), or the overflow slot when
    [v] is above 10000; it adds [v] to [latencySumMs] (the sum of two
    doubles, as [+=] computes it: the exact sum rounded to the nearest double)
    and one to [latencyCount].  Recording 1, 3, 1000 and 50000 from the start
    puts one
    sample in the slots of the bounds 1, 5 and 1000 (indices 0, 2 and 9) and
    one in the overflow slot (index 13), and leaves the sum at 51004. *)
Theorem C7_recordLatency_first_bucket (v : Q) (s : State) :
  histogram_shape s ->
  (exists i : nat,
      bucket_of v i /\
      is_Some (latencyHistogram s !! i) /\
      latencyHistogram (recordLatency v s) !! i = S <$> latencyHistogram s !! i /\
      forall j : nat,
        j <> i ->
        latencyHistogram (recordLatency v s) !! j = latencyHistogram s !! j) /\
  latencySumMs (recordLatency v s) = round_double (latencySumMs s + v) /\
  latencyCount (recordLatency v s) = latencyCount s + 1 /\
  latencyHistogram
    (foldl (fun acc x => recordLatency x acc) initialState
       [1; 3; 1000; 50000]%Q)
  = [1; 0; 1; 0; 0; 0; 0; 0; 0; 1; 0; 0; 0; 1] /\
  (latencySumMs
     (foldl (fun acc x => recordLatency x acc) initialState
        [1; 3; 1000; 50000]%Q)
   == 51004)%Q.
Proof.
  intros Hshape. unfold histogram_shape in Hshape.
  rewrite buckets_length in Hshape.
  split; [|split; [reflexivity|split; [reflexivity|split; [reflexivity|]]]];
    [|vm_compute; reflexivity].
  unfold recordLatency.
  destruct (findIndex _ latencyBucketsMs) as [i|] eqn:Hfind; simpl.
  - destruct (findIndex_Some _ _ _ Hfind) as [[bound [Hi Hle]] Hbefore].
    exists i. split; [|split; [|split]].
    + left. exists bound. split; [exact Hi|]. split.
      * apply Qle_bool_iff; exact Hle.
      * intros j smaller Hj Hsm. apply not_Qle_bool. exact (Hbefore j smaller Hj Hsm).
    + apply lookup_lt_is_Some. apply lookup_lt_Some in Hi.
      rewrite buckets_length in Hi. lia.
    + apply list_lookup_alter_eq.
    + intros j Hj. apply list_lookup_alter_ne. congruence.
  - exists (length (latencyHistogram s) - 1). split; [|split; [|split]].
    + right. split; [rewrite buckets_length; lia|].
      apply not_Qle_bool.
      exact (findIndex_None _ _ Hfind 12 10000%Z eq_refl).
    + apply lookup_lt_is_Some. lia.
    + apply list_lookup_alter_eq.
    + intros j Hj. apply list_lookup_alter_ne. congruence.
Qed.

Lemma C7_recordLatency_first_bucket_witness :
  histogram_shape sampleState /\
  exists i : nat,
    bucket_of (7 # 2) i /\
    latencyHistogram (recordLatency (7 # 2) sampleState) !! i
    = S <$> latencyHistogram sampleState !! i.
Proof.
  split; [reflexivity|].
  destruct (C7_recordLatency_first_bucket (7 # 2) sampleState eq_refl)
    as [[i [Hb [_ [Hi _]]]] _].
  exists i. split; [exact Hb | exact Hi].
Defined.

(** Where the rounding of the sum shows: after the samples 0.1 and 0.2 the
    sum is the double 0.30000000000000004, which is not their exact sum. *)
Lemma latencySum_double_addition_example :
  let s := recordAll [double_0_1; double_0_2] initialState in
  (latencySumMs s == 1351079888211149 # 4503599627370496)%Q /\
  ~ (latencySumMs s == double_0_1 + double_0_2)%Q.
Proof.
  cbv zeta. split; [vm_compute; reflexivity|].
  intros H. vm_compute in H. discriminate H.
Qed.

Lemma lastBucketMs_eq : lastBucketMs = 10000%Z.
Proof. reflexivity. Qed.

(** The loop of [percentile], entered at slot [i] with [cumulative] counted:
    either it stops at the first slot from [i] on whose cumulative count
    reaches the threshold, and that slot has a bound, which is returned; or
    no slot with a bound reaches the threshold, and the largest bound is
    returned. *)
Lemma percentile_loop_spec (threshold : Q) (rest : list nat) :
  forall i cumulative : nat,
    (exists (k : nat) (b : Z),
        k < length rest /\ latencyBucketsMs !! (i + k) = Some b /\
        percentile_loop threshold i cumulative rest = b /\
        (threshold
           <= inject_Z (Z.of_nat (cumulative + sum_list (take (S k) rest))))%Q /\
        forall k' : nat,
          k' < k ->
          ~ (threshold
               <= inject_Z (Z.of_nat (cumulative + sum_list (take (S k') rest))))%Q)
    \/ (percentile_loop threshold i cumulative rest = 10000%Z /\
        forall (k : nat) (b : Z),
          k < length rest -> latencyBucketsMs !! (i + k) = Some b ->
          ~ (threshold
               <= inject_Z (Z.of_nat (cumulative + sum_list (take (S k) rest))))%Q).
Proof.
  induction rest as [|count rest IH]; intros i cumulative.
  - right. split; [reflexivity|]. simpl. intros k b Hk. lia.
  - cbn [percentile_loop].
    destruct (Qle_bool threshold (inject_Z (Z.of_nat (cumulative + count))))
      eqn:Hreach.
    + apply Qle_bool_iff in Hreach.
      destruct (i <? length latencyBucketsMs) eqn:Hi.
      * apply Nat.ltb_lt in Hi.
        destruct (lookup_lt_is_Some_2 latencyBucketsMs i Hi) as [b Hb].
        left. exists 0, b. split; [simpl; lia|].
        rewrite Nat.add_0_r. split; [exact Hb|]. split.
        { rewrite nth_lookup, Hb. reflexivity. }
        split; [|intros k' Hk'; lia].
        cbn [take sum_list foldr]. rewrite Nat.add_0_r. exact Hreach.
      * apply Nat.ltb_ge in Hi. right. split; [apply lastBucketMs_eq|].
        intros k b _ Hb. apply lookup_lt_Some in Hb. lia.
    + assert (Hnot : ~ (threshold <= inject_Z (Z.of_nat (cumulative + count)))%Q).
      { intros H. apply Qle_bool_iff in H. congruence. }
      destruct (IH (S i) (cumulative + count)) as
        [(k & b & Hk & Hb & Hres & Hle & Hfirst) | [Hres Hnone]].
      * left. exists (S k), b. split; [simpl; lia|].
        replace (i + S k) with (S i + k) by lia.
        split; [exact Hb|]. split; [exact Hres|]. split.
        { cbn [take sum_list foldr] in *. rewrite Nat.add_assoc. exact Hle. }
        intros [|k'] Hk'.
        { cbn [take sum_list foldr]. rewrite Nat.add_0_r. exact Hnot. }
        cbn [take sum_list foldr] in *. rewrite Nat.add_assoc.
        apply Hfirst. lia.
      * right. split; [exact Hres|].
        intros [|k] b Hk Hb.
        { cbn [take sum_list foldr]. rewrite Nat.add_0_r. exact Hnot. }
        cbn [take sum_list foldr] in *. rewrite Nat.add_assoc.
        apply (Hnone k b); [simpl in Hk; lia|].
        replace (S i + k) with (i + S k) by lia. exact Hb.
Qed.

(** C6, as stated, fails: after the single sample 50000 the median asked of
    [percentile] is 10000, although no bound of the table has a cumulative
    count that reaches half of the sample count (the sample sits in the
    overflow slot). *)
Lemma C6_percentile_overflow_counterexample :
  (0 <= 1 # 2)%Q /\ (1 # 2 <= 1)%Q /\ histogram_shape overflowOnly /\
  percentile (1 # 2) overflowOnly = 10000%Z /\
  ~ smallest_reaching_bound (1 # 2) overflowOnly (percentile (1 # 2) overflowOnly).
Proof.
  split; [discriminate|]. split; [discriminate|].
  split; [reflexivity|]. split; [reflexivity|].
  intros (i & Hi & Hreach & _).
  apply lookup_lt_Some in Hi. rewrite buckets_length in Hi.
  unfold reaches in Hreach.
  do 13 (destruct i as [|i]; [vm_compute in Hreach; apply Hreach; reflexivity|]).
  lia.
Qed.

(** C6, amended: with no sample [percentile p] is 0.  Otherwise the
    threshold is the product of the sample count and [p] as the multiplication
    of two doubles gives it (the exact product rounded to the nearest double);
    when some bound of the table has a cumulative count (up to and including
    its slot) of at least that threshold, [percentile p] is the smallest such
    bound; when none has, because the threshold is only met in the overflow
    slot, [percentile p] is the largest bound, 10000. *)
Theorem C6_percentile_smallest_bound_or_top (p : Q) (s : State) :
  histogram_shape s ->
  (latencyCount s = 0 -> percentile p s = 0%Z) /\
  (latencyCount s <> 0 ->
   ((exists (i : nat) (b : Z),
        latencyBucketsMs !! i = Some b /\ reaches_double p s i) ->
    smallest_bound_reaching_double p s (percentile p s)) /\
   ((forall (i : nat) (b : Z),
        latencyBucketsMs !! i = Some b -> ~ reaches_double p s i) ->
    percentile p s = 10000%Z)).
Proof.
  intros Hshape. unfold histogram_shape in Hshape.
  rewrite buckets_length in Hshape.
  split.
  { intros H0. unfold percentile. rewrite H0. reflexivity. }
  intros Hcount. unfold percentile.
  destruct (latencyCount s =? 0) eqn:Hz; [apply Nat.eqb_eq in Hz; contradiction|].
  unfold smallest_bound_reaching_double, reaches_double, cumulativeUpTo.
  fold (threshold_of p s).
  destruct (percentile_loop_spec (threshold_of p s) (latencyHistogram s) 0 0)
    as [(k & b & Hk & Hb & Hres & Hle & Hfirst) | [Hres Hnone]];
    simpl in *.
  - split.
    + intros _. rewrite Hres. exists k. split; [exact Hb|]. split; [exact Hle|].
      intros j b' Hj Hreach.
      apply (buckets_increasing k j); [|exact Hb|exact Hj].
      destruct (le_lt_dec k j) as [Hkj|Hjk]; [exact Hkj|].
      exfalso. exact (Hfirst j Hjk Hreach).
    + intros Hno. exfalso. exact (Hno k b Hb Hle).
  - split.
    + intros (i & b & Hi & Hreach). exfalso.
      apply (Hnone i b); [|exact Hi|exact Hreach].
      apply lookup_lt_Some in Hi. rewrite buckets_length in Hi. lia.
    + intros _. exact Hres.
Qed.

Lemma C6_percentile_smallest_bound_or_top_witness :
  histogram_shape sampleState /\ latencyCount sampleState <> 0 /\
  (exists (i : nat) (b : Z),
      latencyBucketsMs !! i = Some b /\ reaches_double (1 # 2) sampleState i) /\
  smallest_bound_reaching_double (1 # 2) sampleState
    (percentile (1 # 2) sampleState) /\
  percentile (1 # 2) sampleState = 5%Z.
Proof.
  assert (Hsome : exists (i : nat) (b : Z),
             latencyBucketsMs !! i = Some b /\
             reaches_double (1 # 2) sampleState i).
  { exists 2, 5%Z. split; [reflexivity|]. vm_compute. discriminate. }
  split; [reflexivity|]. split; [discriminate|]. split; [exact Hsome|].
  split; [|vm_compute; reflexivity].
  destruct (C6_percentile_smallest_bound_or_top (1 # 2) sampleState eq_refl)
    as [_ Hpos].
  destruct (Hpos ltac:(discriminate)) as [Hfound _].
  exact (Hfound Hsome).
Defined.

(** Where the rounding of the product shows: ten samples, one of them at most
    1 ms, and [p] the double [0.1].  The exact product of 10 and that double
    is above 1, so the first slot does not reach it; the product of the two
    doubles is 1, and [percentile] answers the first bound. *)
Lemma percentile_double_product_example :
  let s := recordAll [1; 2; 2; 2; 2; 2; 2; 2; 2; 2]%Q initialState in
  percentile double_0_1 s = 1%Z /\
  (threshold_of double_0_1 s == 1)%Q /\
  ~ reaches double_0_1 s 0 /\
  reaches double_0_1 s 1.
Proof.
  cbv zeta. split; [vm_compute; reflexivity|].
  split; [vm_compute; reflexivity|].
  split; [intros H; vm_compute in H; apply H; reflexivity|].
  vm_compute. discriminate.
Qed.

(** ** Admission gate *)

Lemma events_route (cfg : Config) (req : Request) (amb : Ambient) (s : State) :
  is_events req = true ->
  handleRequest cfg req amb s = admit_resume cfg req amb (admit_begin s).
Proof.
  intros H. unfold handleRequest. rewrite H.
  unfold is_events in H. apply andb_prop in H as [Hm _].
  apply String.eqb_eq in Hm.
  unfold is_health, is_metrics. rewrite Hm. reflexivity.
Qed.

Lemma other_route (cfg : Config) (req : Request) (amb : Ambient) (s : State) :
  is_events req = false -> (handleRequest cfg req amb s).1 = s.
Proof.
  intros H. unfold handleRequest. rewrite H.
  destruct (is_health req); [reflexivity|].
  destruct (is_metrics req); reflexivity.
Qed.

Lemma enqueueDeadLetter_full (cfg : Config) (record : RequestRecord)
    (err : string) (s : State) :
  (maxDeadQueueSize cfg <= Z.of_nat (length (deadLetters s)))%Z ->
  enqueueDeadLetter cfg record err s = console_error overflow_dropping_record s.
Proof.
  intros H. unfold enqueueDeadLetter.
  destruct (Z.leb_spec (maxDeadQueueSize cfg) (Z.of_nat (length (deadLetters s))));
    [reflexivity | lia].
Qed.

Lemma enqueueDeadLetter_room (cfg : Config) (record : RequestRecord)
    (err : string) (s : State) :
  (Z.of_nat (length (deadLetters s)) < maxDeadQueueSize cfg)%Z ->
  enqueueDeadLetter cfg record err s
  = set_deadLetters
      (deadLetters s ++ [{| base := record; error := slice1000 err |}])
      (set_totalDeadLetters (totalDeadLetters s + 1) s).
Proof.
  intros H. unfold enqueueDeadLetter.
  destruct (Z.leb_spec (maxDeadQueueSize cfg) (Z.of_nat (length (deadLetters s))));
    [lia | reflexivity].
Qed.

Lemma rejected_settle (cfg : Config) (req : Request) (amb : Ambient) (s : State) :
  rejected_request cfg req s ->
  exists (record : RequestRecord) (err : string) (code : nat),
    (handleRequest cfg req amb s).1
    = recordLatency (elapsedMs amb)
        (let s1 := enqueueDeadLetter cfg record err (admit_begin s) in
         set_totalRejected (totalRejected s1 + 1) s1) /\
    (handleRequest cfg req amb s).2.(status) = code /\
    (code = 400 \/ code = 503).
Proof.
  intros [Hev Hwhy]. rewrite (events_route _ _ _ _ Hev).
  unfold admit_resume, admit_settle.
  destruct (req_body req) as [text|cause] eqn:Hbody.
  - destruct Hwhy as [[cause Hc]|Hfull]; [discriminate|].
    change (pending (admit_begin s)) with (pending s).
    destruct (Z.leb_spec (maxQueueSize cfg) (Z.of_nat (length (pending s))));
      [|lia].
    eexists _, _, 503. split; [reflexivity|]. split; [reflexivity|]. right; reflexivity.
  - eexists _, _, 400. split; [reflexivity|]. split; [reflexivity|]. left; reflexivity.
Qed.

(** C5: when the gate routes a rejected request (unreadable body, or Record
    Queue at capacity) to the Dead-Letter Queue and that queue is at capacity,
    the record enters neither queue and the warning is written to the
    console; when there is room the record is appended.  [totalDeadLetters]
    goes up by one exactly when the record is appended. *)
Theorem C5_dead_letter_routing_capacity (cfg : Config) (req : Request)
    (amb : Ambient) (s : State) :
  rejected_request cfg req s ->
  let s' := (handleRequest cfg req amb s).1 in
  pending s' = pending s /\
  ((maxDeadQueueSize cfg <= Z.of_nat (length (deadLetters s)))%Z ->
   deadLetters s' = deadLetters s /\
   console s' = console s ++ [overflow_dropping_record] /\
   totalDeadLetters s' = totalDeadLetters s) /\
  ((Z.of_nat (length (deadLetters s)) < maxDeadQueueSize cfg)%Z ->
   (exists dl : DeadLetterRecord, deadLetters s' = deadLetters s ++ [dl]) /\
   console s' = console s /\
   totalDeadLetters s' = totalDeadLetters s + 1) /\
  (totalDeadLetters s' = totalDeadLetters s + 1 <->
   length (deadLetters s') = length (deadLetters s) + 1).
Proof.
  intros Hrej s'.
  destruct (rejected_settle cfg req amb s Hrej) as (record & err & code & Hs & _).
  subst s'. rewrite Hs. clear Hs.
  destruct (Z.le_gt_cases (maxDeadQueueSize cfg) (Z.of_nat (length (deadLetters s))))
    as [Hfull|Hroom].
  - rewrite (enqueueDeadLetter_full cfg record err (admit_begin s)) by exact Hfull.
    cbn. split; [reflexivity|]. split; [intros _; auto|]. split; [intros; lia|].
    split; intros; lia.
  - rewrite (enqueueDeadLetter_room cfg record err (admit_begin s)) by exact Hroom.
    cbn. split; [reflexivity|]. split; [intros; lia|].
    split; [intros _; eauto|].
    rewrite length_app. simpl. split; intros; lia.
Qed.

Lemma C5_dead_letter_routing_capacity_witness :
  rejected_request noDeadLetterConfig unreadable initialState /\
  deadLetters (handleRequest noDeadLetterConfig unreadable (ambient "u") initialState).1
  = [] /\
  console (handleRequest noDeadLetterConfig unreadable (ambient "u") initialState).1
  = [overflow_dropping_record].
Proof.
  assert (H : rejected_request noDeadLetterConfig unreadable initialState).
  { split; [reflexivity|]. left. eexists; reflexivity. }
  split; [exact H|].
  destruct (C5_dead_letter_routing_capacity noDeadLetterConfig unreadable
              (ambient "u") initialState H) as (_ & Hfull & _).
  destruct (Hfull ltac:(simpl; lia)) as (Hd & Hc & _).
  split; [exact Hd | exact Hc].
Defined.

Lemma admit_begin_totalReceived (s : State) :
  totalReceived (admit_begin s) = totalReceived s + 1.
Proof. reflexivity. Qed.

Lemma admit_resume_totalReceived (cfg : Config) (req : Request) (amb : Ambient)
    (s : State) :
  totalReceived (admit_resume cfg req amb s).1 = totalReceived s.
Proof.
  unfold admit_resume, admit_settle, enqueueDeadLetter.
  destruct (req_body req);
    repeat match goal with |- context [if ?b then _ else _] => destruct b end;
    reflexivity.
Qed.

(** An admission of a request whose body reads, seen from a state where the
    Record Queue has room. *)
Lemma accept_room (cfg : Config) (req : Request) (amb : Ambient) (s : State)
    (text : string) :
  is_events req = true -> req_body req = BodyText text ->
  (Z.of_nat (length (pending s)) < maxQueueSize cfg)%Z ->
  let record :=
    {| trace_id := traceIdOf req amb; received_at := now amb;
       method := req_method req; path := req_pathname req;
       payload := if String.length text =? 0 then None else Some text |} in
  handleRequest cfg req amb s
  = (recordLatency (elapsedMs amb)
       (set_totalAccepted (totalAccepted s + 1)
          (set_pending (pending s ++ [record]) (admit_begin s))),
     {| status := 202; x_trace_id := Some (traceIdOf req amb);
        body := AcceptedJson (traceIdOf req amb) |}).
Proof.
  intros Hev Hbody Hroom record. rewrite (events_route _ _ _ _ Hev).
  unfold admit_resume, admit_settle. rewrite Hbody.
  change (pending (admit_begin s)) with (pending s).
  destruct (Z.leb_spec (maxQueueSize cfg) (Z.of_nat (length (pending s))));
    [lia | reflexivity].
Qed.

(** The same admission seen from a state where the Record Queue is full. *)
Lemma accept_full (cfg : Config) (req : Request) (amb : Ambient) (s : State)
    (text : string) :
  is_events req = true -> req_body req = BodyText text ->
  (maxQueueSize cfg <= Z.of_nat (length (pending s)))%Z ->
  let record :=
    {| trace_id := traceIdOf req amb; received_at := now amb;
       method := req_method req; path := req_pathname req;
       payload := if String.length text =? 0 then None else Some text |} in
  handleRequest cfg req amb s
  = (recordLatency (elapsedMs amb)
       (let s1 := enqueueDeadLetter cfg record "queue_overflow" (admit_begin s) in
        set_totalRejected (totalRejected s1 + 1) s1),
     {| status := 503; x_trace_id := Some (traceIdOf req amb);
        body := Text "Overloaded" |}).
Proof.
  intros Hev Hbody Hfull record. rewrite (events_route _ _ _ _ Hev).
  unfold admit_resume, admit_settle. rewrite Hbody.
  change (pending (admit_begin s)) with (pending s).
  destruct (Z.leb_spec (maxQueueSize cfg) (Z.of_nat (length (pending s))));
    [reflexivity | lia].
Qed.

(** C4: with [maxQueueSize = 2] and room for one dead letter, three
    well-formed requests admitted from the initial state, no flush in between,
    leave two records in the Record Queue, one in the Dead-Letter Queue with
    error ["queue_overflow"], and the totals rejected 1, accepted 2,
    received 3.  In any state, every request on the events route adds exactly
    one to [totalReceived], whatever its outcome: one at the start of the
    admission and nothing when it resumes. *)
Theorem C4_three_admissions_and_totalReceived :
  (forall (cfg : Config) (r1 r2 r3 : Request) (a1 a2 a3 : Ambient),
      maxQueueSize cfg = 2%Z -> (1 <= maxDeadQueueSize cfg)%Z ->
      well_formed r1 -> well_formed r2 -> well_formed r3 ->
      let s1 := (handleRequest cfg r1 a1 initialState).1 in
      let s2 := (handleRequest cfg r2 a2 s1).1 in
      let s3 := (handleRequest cfg r3 a3 s2).1 in
      length (pending s3) = 2 /\
      (exists dl : DeadLetterRecord,
          deadLetters s3 = [dl] /\ error dl = "queue_overflow") /\
      totalRejected s3 = 1 /\ totalAccepted s3 = 2 /\ totalReceived s3 = 3) /\
  (forall (cfg : Config) (req : Request) (amb : Ambient) (s : State),
      is_events req = true ->
      totalReceived (handleRequest cfg req amb s).1 = totalReceived s + 1 /\
      totalReceived (admit_begin s) = totalReceived s + 1 /\
      totalReceived (admit_resume cfg req amb s).1 = totalReceived s).
Proof.
  split.
  - intros cfg r1 r2 r3 a1 a2 a3 Hmax Hdead [He1 [t1 Hb1]] [He2 [t2 Hb2]]
      [He3 [t3 Hb3]] s1 s2 s3.
    subst s3 s2 s1.
    rewrite (accept_room cfg r1 a1 initialState t1 He1 Hb1)
      by (rewrite Hmax; simpl; lia).
    cbn [fst].
    rewrite (accept_room cfg r2 a2 _ t2 He2 Hb2) by (rewrite Hmax; simpl; lia).
    cbn [fst].
    rewrite (accept_full cfg r3 a3 _ t3 He3 Hb3) by (rewrite Hmax; simpl; lia).
    cbn [fst].
    rewrite enqueueDeadLetter_room by (simpl; lia).
    cbn. split; [reflexivity|]. split; [|auto].
    eexists; split; reflexivity.
  - intros cfg req amb s Hev.
    rewrite (events_route _ _ _ _ Hev), admit_resume_totalReceived.
    split; [reflexivity|]. split; [reflexivity|].
    apply admit_resume_totalReceived.
Qed.

Lemma C4_three_admissions_and_totalReceived_witness :
  let s3 :=
    (handleRequest smallConfig (post "c") (ambient "u3")
       (handleRequest smallConfig (post "b") (ambient "u2")
          (handleRequest smallConfig (post "a") (ambient "u1") initialState).1).1).1 in
  length (pending s3) = 2 /\
  (exists dl : DeadLetterRecord, deadLetters s3 = [dl] /\ error dl = "queue_overflow") /\
  totalRejected s3 = 1 /\ totalAccepted s3 = 2 /\ totalReceived s3 = 3.
Proof.
  apply (proj1 C4_three_admissions_and_totalReceived smallConfig
           (post "a") (post "b") (post "c")
           (ambient "u1") (ambient "u2") (ambient "u3"));
    try reflexivity; try (simpl; lia);
    (split; [reflexivity | eexists; reflexivity]).
Defined.

(** C10: when a request on the events route whose body reads as the empty
    string is accepted (answer 202), the record appended to the Record Queue
    has a null payload. *)
Theorem C10_empty_body_null_payload (cfg : Config) (req : Request)
    (amb : Ambient) (s : State) :
  is_events req = true ->
  req_body req = BodyText "" ->
  status (handleRequest cfg req amb s).2 = 202 ->
  exists record : RequestRecord,
    pending (handleRequest cfg req amb s).1 = pending s ++ [record] /\
    payload record = None /\
    trace_id record = traceIdOf req amb /\
    method record = req_method req /\
    path record = req_pathname req.
Proof.
  intros Hev Hbody Hstatus.
  destruct (Z.le_gt_cases (maxQueueSize cfg) (Z.of_nat (length (pending s))))
    as [Hfull|Hroom].
  - rewrite (accept_full cfg req amb s "" Hev Hbody Hfull) in Hstatus.
    discriminate Hstatus.
  - rewrite (accept_room cfg req amb s "" Hev Hbody Hroom).
    eexists. split; [reflexivity|]. repeat split.
Qed.

Lemma C10_empty_body_null_payload_witness :
  exists record : RequestRecord,
    pending (handleRequest smallConfig (post "") (ambient "u1") initialState).1
    = [record] /\
    payload record = None.
Proof.
  destruct (C10_empty_body_null_payload smallConfig (post "") (ambient "u1")
              initialState eq_refl eq_refl eq_refl)
    as (record & Hp & Hnull & _).
  exists record. split; [exact Hp | exact Hnull].
Defined.

(** ** Flush cycles *)

Lemma flushQueue_begin_idle (cfg : Config) (s : State) :
  flushing s = true \/ pending s = [] ->
  flushQueue_begin cfg s = (s, None).
Proof.
  intros H. unfold flushQueue_begin.
  destruct H as [-> | ->]; [reflexivity|].
  rewrite orb_true_r. reflexivity.
Qed.

Lemma flushQueue_begin_runs (cfg : Config) (s : State) :
  flushing s = false -> pending s <> [] ->
  flushQueue_begin cfg s
  = (set_pending (drop (Z.to_nat (batchSize cfg)) (pending s)) (set_flushing true s),
     Some (take (Z.to_nat (batchSize cfg)) (pending s))).
Proof.
  intros Hf Hne. unfold flushQueue_begin. rewrite Hf.
  destruct (pending s) as [|r rest] eqn:Hp; [contradiction|]. reflexivity.
Qed.

Lemma flushDeadLetters_begin_idle (cfg : Config) (s : State) :
  deadFlushing s = true \/ deadLetters s = [] ->
  flushDeadLetters_begin cfg s = (s, None).
Proof.
  intros H. unfold flushDeadLetters_begin.
  destruct H as [-> | ->]; [reflexivity|].
  rewrite orb_true_r. reflexivity.
Qed.

Lemma flushDeadLetters_begin_runs (cfg : Config) (s : State) :
  deadFlushing s = false -> deadLetters s <> [] ->
  flushDeadLetters_begin cfg s
  = (set_deadLetters (drop (Z.to_nat (batchSize cfg)) (deadLetters s))
       (set_deadFlushing true s),
     Some (take (Z.to_nat (batchSize cfg)) (deadLetters s))).
Proof.
  intros Hf Hne. unfold flushDeadLetters_begin. rewrite Hf.
  destruct (deadLetters s) as [|r rest] eqn:Hp; [contradiction|]. reflexivity.
Qed.

(** C8: called while its queue is empty or while its own flush is in flight,
    [flushQueue] (and likewise [flushDeadLetters]) returns at once, awaits no
    insert, and leaves the whole state as it was, [lastFlushAt] and
    [lastDeadFlushAt] included. *)
Theorem C8_flush_noop (cfg : Config) (s : State) :
  (flushing s = true \/ pending s = [] ->
   flushQueue_begin cfg s = (s, None) /\
   forall (r : db_result) (at_ms : Z), flushQueue cfg r at_ms s = s) /\
  (deadFlushing s = true \/ deadLetters s = [] ->
   flushDeadLetters_begin cfg s = (s, None) /\
   forall (r : db_result) (at_ms : Z), flushDeadLetters cfg r at_ms s = s).
Proof.
  split; intros H.
  - pose proof (flushQueue_begin_idle cfg s H) as Hb.
    split; [exact Hb|]. intros r at_ms. unfold flushQueue. rewrite Hb. reflexivity.
  - pose proof (flushDeadLetters_begin_idle cfg s H) as Hb.
    split; [exact Hb|]. intros r at_ms. unfold flushDeadLetters. rewrite Hb.
    reflexivity.
Qed.

Lemma C8_flush_noop_witness :
  flushQueue defaultConfig (InsertFailed (ThrownError "down")) 5%Z initialState
  = initialState /\
  flushDeadLetters defaultConfig (InsertFailed (ThrownError "down")) 5%Z
    (set_deadFlushing true
       (handleRequest smallConfig unreadable (ambient "u") initialState).1)
  = set_deadFlushing true
      (handleRequest smallConfig unreadable (ambient "u") initialState).1.
Proof.
  split.
  - apply (proj1 (C8_flush_noop defaultConfig initialState)). right. reflexivity.
  - apply (proj2 (C8_flush_noop defaultConfig _)). left. reflexivity.
Defined.

Lemma spread_refused_false {A : Type} (cfg : Config) (args : list A) :
  (Z.of_nat (length args) <= maxArguments cfg)%Z -> spread_refused cfg args = false.
Proof. intros H. unfold spread_refused. apply Z.ltb_ge. exact H. Qed.

Lemma spread_refused_true {A : Type} (cfg : Config) (args : list A) :
  (maxArguments cfg < Z.of_nat (length args))%Z -> spread_refused cfg args = true.
Proof. intros H. unfold spread_refused. apply Z.ltb_lt. exact H. Qed.

(** What the failure branch of [flushQueue] does, in whatever state [s] the
    failure finds the module. *)
Lemma flushQueue_resume_failed (cfg : Config) (batch : list RequestRecord)
    (cause : thrown) (at_ms : Z) (s : State) :
  let s2 := flushQueue_resume cfg batch (InsertFailed cause) at_ms s in
  totalDbErrors s2 = totalDbErrors s + 1 /\
  lastFlushError s2 = Some (formatError cause) /\
  pending s2 = pending s /\
  lastFlushAt s2 = Some at_ms /\
  flushing s2 = false /\
  ((Z.of_nat (length batch) <= maxArguments cfg)%Z ->
   deadLetters s2
   = deadLetters s
     ++ map (fun record =>
               {| base := record;
                  error := "insert_failed: " ++ formatError cause |}) batch /\
   flushQueue_resume_throws cfg batch (InsertFailed cause) = false) /\
  ((maxArguments cfg < Z.of_nat (length batch))%Z ->
   deadLetters s2 = deadLetters s /\
   flushQueue_resume_throws cfg batch (InsertFailed cause) = true).
Proof.
  unfold flushQueue_resume, flushQueue_resume_throws.
  destruct (Z.le_gt_cases (Z.of_nat (length batch)) (maxArguments cfg)) as [Hok|Hno].
  - rewrite spread_refused_false by (rewrite length_map; exact Hok).
    cbn. repeat split; auto; intros; lia.
  - rewrite spread_refused_true by (rewrite length_map; lia).
    cbn. repeat split; auto; intros; lia.
Qed.

(** C2: a flush of a non-empty Record Queue removes the batch (the first
    [batchSize] records, or all of them when there are fewer) before the
    insert is awaited, so the queue is shorter by the size of the batch
    whatever the insert does.  When the insert fails, in whatever state [s']
    the failure finds the module, [totalDbErrors] goes up by one and the
    failure message becomes [lastFlushError].  If the batch is no longer than
    the engine takes as the arguments of one call, every record of the batch
    is appended, in order, at the tail of the Dead-Letter Queue with the error
    ["insert_failed: "] followed by the message.  If it is longer, the engine
    refuses [deadLetters.push(...)]: nothing is appended, the records of the
    batch are in neither queue, and [flushQueue] ends by throwing.  There the
    code does not do what the claim says. *)
Theorem C2_flush_insert_failure (cfg : Config) (s : State) (cause : thrown)
    (at_ms : Z) :
  flushing s = false -> pending s <> [] ->
  exists (batch : list RequestRecord) (s1 : State),
    flushQueue_begin cfg s = (s1, Some batch) /\
    batch = take (Z.to_nat (batchSize cfg)) (pending s) /\
    s1 = set_pending (drop (Z.to_nat (batchSize cfg)) (pending s))
           (set_flushing true s) /\
    pending s = batch ++ pending s1 /\
    length (pending s1) = length (pending s) - length batch /\
    length batch = Nat.min (Z.to_nat (batchSize cfg)) (length (pending s)) /\
    (forall s' : State,
        let s2 := flushQueue_resume cfg batch (InsertFailed cause) at_ms s' in
        totalDbErrors s2 = totalDbErrors s' + 1 /\
        lastFlushError s2 = Some (formatError cause) /\
        pending s2 = pending s' /\
        lastFlushAt s2 = Some at_ms /\
        flushing s2 = false /\
        ((Z.of_nat (length batch) <= maxArguments cfg)%Z ->
         deadLetters s2
         = deadLetters s'
           ++ map (fun record =>
                     {| base := record;
                        error := "insert_failed: " ++ formatError cause |}) batch /\
         flushQueue_resume_throws cfg batch (InsertFailed cause) = false) /\
        ((maxArguments cfg < Z.of_nat (length batch))%Z ->
         deadLetters s2 = deadLetters s' /\
         flushQueue_resume_throws cfg batch (InsertFailed cause) = true)) /\
    let s2 := flushQueue cfg (InsertFailed cause) at_ms s in
    totalDbErrors s2 = totalDbErrors s + 1 /\
    lastFlushError s2 = Some (formatError cause) /\
    length (pending s2) = length (pending s) - length batch /\
    ((Z.of_nat (length batch) <= maxArguments cfg)%Z ->
     deadLetters s2
     = deadLetters s
       ++ map (fun record =>
                 {| base := record;
                    error := "insert_failed: " ++ formatError cause |}) batch /\
     length (deadLetters s2) = length (deadLetters s) + length batch /\
     flushQueue_throws cfg (InsertFailed cause) s = false) /\
    ((maxArguments cfg < Z.of_nat (length batch))%Z ->
     deadLetters s2 = deadLetters s /\
     flushQueue_throws cfg (InsertFailed cause) s = true).
Proof.
  intros Hidle Hne.
  pose proof (flushQueue_begin_runs cfg s Hidle Hne) as Hbegin.
  set (batch := take (Z.to_nat (batchSize cfg)) (pending s)) in *.
  set (s1 := set_pending (drop (Z.to_nat (batchSize cfg)) (pending s))
               (set_flushing true s)) in *.
  exists batch, s1. split; [exact Hbegin|]. split; [reflexivity|].
  split; [reflexivity|].
  split; [symmetry; apply take_drop|].
  split; [subst s1 batch; cbn; rewrite length_drop, length_take; lia|].
  split; [apply length_take|].
  split.
  { intros s'.
    destruct (flushQueue_resume_failed cfg batch cause at_ms s')
      as (H1 & H2 & H3 & H6 & H7 & H4 & H5).
    cbv zeta. auto 10. }
  unfold flushQueue, flushQueue_throws. rewrite Hbegin.
  destruct (flushQueue_resume_failed cfg batch cause at_ms s1)
    as (H1 & H2 & H3 & _ & _ & H4 & H5).
  cbv zeta. split; [exact H1|]. split; [exact H2|].
  split; [rewrite H3; subst s1 batch; cbn; rewrite length_drop, length_take; lia|].
  split.
  - intros Hok. destruct (H4 Hok) as [Hd Ht]. split; [exact Hd|].
    split; [|exact Ht]. rewrite Hd, length_app, length_map. reflexivity.
  - exact H5.
Qed.

Lemma C2_flush_insert_failure_witness :
  (flushing twoPending = false /\ pending twoPending <> [] /\
   let s2 := flushQueue smallConfig (InsertFailed (ThrownError "down")) 7%Z twoPending in
   totalDbErrors s2 = 1 /\
   lastFlushError s2 = Some "down" /\
   pending s2 = [] /\
   map error (deadLetters s2) = ["insert_failed: down"; "insert_failed: down"]) /\
  (flushing floodPending = false /\ pending floodPending <> [] /\
   let s2 := flushQueue floodConfig (InsertFailed (ThrownError "down")) 7%Z floodPending in
   totalDbErrors s2 = 1 /\
   lastFlushError s2 = Some "down" /\
   deadLetters s2 = [] /\
   flushQueue_throws floodConfig (InsertFailed (ThrownError "down")) floodPending
   = true).
Proof.
  split.
  - split; [reflexivity|]. split; [discriminate|].
    destruct (C2_flush_insert_failure smallConfig twoPending (ThrownError "down") 7%Z
                eq_refl ltac:(discriminate))
      as (batch & s1 & _ & _ & _ & _ & _ & _ & _ & Herr & Hlast & _).
    cbv zeta. split; [exact Herr|]. split; [exact Hlast|].
    split; vm_compute; reflexivity.
  - split; [reflexivity|]. split; [discriminate|].
    destruct (C2_flush_insert_failure floodConfig floodPending (ThrownError "down")
                7%Z eq_refl ltac:(discriminate))
      as (batch & s1 & _ & -> & _ & _ & _ & _ & _ & Herr & Hlast & _ & _ & Hlost).
    cbv zeta. split; [exact Herr|]. split; [exact Hlast|].
    apply Hlost. vm_compute. reflexivity.
Defined.

Lemma length_requeued_error (errorMessage : string) (record : DeadLetterRecord) :
  String.length (error (requeued errorMessage record)) <= 1000.
Proof. apply length_slice1000. Qed.

(** What the failure branch of [flushDeadLetters] does, in whatever state [s]
    the failure finds the module. *)
Lemma flushDeadLetters_resume_failed (cfg : Config) (batch : list DeadLetterRecord)
    (cause : thrown) (at_ms : Z) (s : State) :
  let s2 := flushDeadLetters_resume cfg batch (InsertFailed cause) at_ms s in
  let requeue := map (requeued (formatError cause)) batch in
  let fits :=
    (Z.of_nat (length (deadLetters s) + length batch) <= maxDeadQueueSize cfg)%Z in
  totalDbErrors s2 = totalDbErrors s + 1 /\
  lastDeadFlushError s2 = Some (formatError cause) /\
  pending s2 = pending s /\
  lastDeadFlushAt s2 = Some at_ms /\
  deadFlushing s2 = false /\
  (fits -> (Z.of_nat (length batch) <= maxArguments cfg)%Z ->
   deadLetters s2 = requeue ++ deadLetters s /\ console s2 = console s /\
   flushDeadLetters_resume_throws cfg batch (InsertFailed cause) s = false) /\
  (fits -> (maxArguments cfg < Z.of_nat (length batch))%Z ->
   deadLetters s2 = deadLetters s /\ console s2 = console s /\
   flushDeadLetters_resume_throws cfg batch (InsertFailed cause) s = true) /\
  (~ fits ->
   deadLetters s2 = deadLetters s /\
   console s2 = console s ++ [overflow_dropping_records] /\
   flushDeadLetters_resume_throws cfg batch (InsertFailed cause) s = false).
Proof.
  unfold flushDeadLetters_resume, flushDeadLetters_resume_throws.
  cbn [formatError].
  change (deadLetters (set_lastDeadFlushError _ (set_totalDbErrors _ s)))
    with (deadLetters s).
  rewrite length_map.
  destruct (Z.leb_spec (Z.of_nat (length (deadLetters s) + length batch))
              (maxDeadQueueSize cfg)) as [Hfit|Hover].
  - destruct (Z.le_gt_cases (Z.of_nat (length batch)) (maxArguments cfg))
      as [Hok|Hno].
    + rewrite spread_refused_false by (rewrite length_map; exact Hok).
      cbn. repeat split; auto; intros; lia.
    + rewrite spread_refused_true by (rewrite length_map; lia).
      cbn. repeat split; auto; intros; lia.
  - cbn. repeat split; auto; intros; lia.
Qed.

(** C3: a flush of a non-empty Dead-Letter Queue removes its batch (the
    first [batchSize] records) before the insert is awaited.  When the insert
    fails, in whatever state [s'] the failure finds the module,
    [totalDbErrors] goes up by one and the message becomes
    [lastDeadFlushError]; each record of the batch gets the error made of its
    old error, ["; dead_letter_insert_failed: "] and the message, cut to its
    first 1000 characters.  If the queue as it is then, plus the batch, holds
    more than [maxDeadQueueSize] records, the queue is left as it is, none of
    the batch returns, and the overflow warning is written to the console.
    If it holds at most that many and the batch is no longer than the engine
    takes as the arguments of one call, the whole batch is put back in front,
    in order, and nothing is logged.  If the batch fits but is longer than
    that, the engine refuses [deadLetters.unshift(...)]: nothing is put back,
    nothing is logged, and [flushDeadLetters] ends by throwing.  There the
    code does not do what the claim says. *)
Theorem C3_dead_flush_insert_failure (cfg : Config) (s : State) (cause : thrown)
    (at_ms : Z) :
  deadFlushing s = false -> deadLetters s <> [] ->
  exists (batch : list DeadLetterRecord) (s1 : State),
    flushDeadLetters_begin cfg s = (s1, Some batch) /\
    batch = take (Z.to_nat (batchSize cfg)) (deadLetters s) /\
    s1 = set_deadLetters (drop (Z.to_nat (batchSize cfg)) (deadLetters s))
           (set_deadFlushing true s) /\
    deadLetters s1 = drop (Z.to_nat (batchSize cfg)) (deadLetters s) /\
    deadLetters s = batch ++ deadLetters s1 /\
    (forall s' : State,
        let s2 := flushDeadLetters_resume cfg batch (InsertFailed cause) at_ms s' in
        let requeue :=
          map (fun record =>
                 {| base := base record;
                    error := substring 0 1000
                               (error record ++ "; dead_letter_insert_failed: "
                                  ++ formatError cause) |}) batch in
        let fits :=
          (Z.of_nat (length (deadLetters s') + length batch)
             <= maxDeadQueueSize cfg)%Z in
        totalDbErrors s2 = totalDbErrors s' + 1 /\
        lastDeadFlushError s2 = Some (formatError cause) /\
        lastDeadFlushAt s2 = Some at_ms /\
        deadFlushing s2 = false /\
        Forall (fun record => String.length (error record) <= 1000) requeue /\
        (fits -> (Z.of_nat (length batch) <= maxArguments cfg)%Z ->
         deadLetters s2 = requeue ++ deadLetters s' /\ console s2 = console s' /\
         flushDeadLetters_resume_throws cfg batch (InsertFailed cause) s' = false) /\
        (fits -> (maxArguments cfg < Z.of_nat (length batch))%Z ->
         deadLetters s2 = deadLetters s' /\ console s2 = console s' /\
         flushDeadLetters_resume_throws cfg batch (InsertFailed cause) s' = true) /\
        (~ fits ->
         deadLetters s2 = deadLetters s' /\
         console s2 = console s' ++ [overflow_dropping_records] /\
         flushDeadLetters_resume_throws cfg batch (InsertFailed cause) s' = false)) /\
    flushDeadLetters cfg (InsertFailed cause) at_ms s
    = flushDeadLetters_resume cfg batch (InsertFailed cause) at_ms s1 /\
    flushDeadLetters_throws cfg (InsertFailed cause) s
    = flushDeadLetters_resume_throws cfg batch (InsertFailed cause) s1.
Proof.
  intros Hidle Hne.
  pose proof (flushDeadLetters_begin_runs cfg s Hidle Hne) as Hbegin.
  eexists _, _. split; [exact Hbegin|]. split; [reflexivity|].
  split; [reflexivity|].
  split; [reflexivity|]. split; [symmetry; apply take_drop|].
  split.
  - intros s'.
    destruct (flushDeadLetters_resume_failed cfg
                (take (Z.to_nat (batchSize cfg)) (deadLetters s)) cause at_ms s')
      as (H1 & H2 & _ & H6 & H7 & H3 & H4 & H5).
    cbv zeta. split; [exact H1|]. split; [exact H2|]. split; [exact H6|].
    split; [exact H7|]. split; [|auto].
    apply Forall_map, Forall_forall. intros record _. apply length_substring_0.
  - unfold flushDeadLetters, flushDeadLetters_throws. rewrite Hbegin. auto.
Qed.

Lemma C3_dead_flush_insert_failure_witness :
  (deadFlushing oneDead = false /\ deadLetters oneDead <> [] /\
   map error
     (deadLetters
        (flushDeadLetters smallConfig (InsertFailed (ThrownOther "timeout")) 8%Z
           oneDead))
   = ["body_read_failed: aborted; dead_letter_insert_failed: timeout"]) /\
  (deadFlushing floodDead = false /\ deadLetters floodDead <> [] /\
   deadLetters
     (flushDeadLetters floodDeadConfig (InsertFailed (ThrownOther "timeout")) 8%Z
        floodDead)
   = [] /\
   console
     (flushDeadLetters floodDeadConfig (InsertFailed (ThrownOther "timeout")) 8%Z
        floodDead)
   = [] /\
   flushDeadLetters_throws floodDeadConfig (InsertFailed (ThrownOther "timeout"))
     floodDead
   = true).
Proof.
  split.
  - split; [reflexivity|]. split; [discriminate|].
    destruct (C3_dead_flush_insert_failure smallConfig oneDead
                (ThrownOther "timeout") 8%Z eq_refl ltac:(discriminate))
      as (batch & s1 & Hbegin & -> & _ & Hrest & _ & Hfail & -> & _).
    destruct (Hfail s1) as (_ & _ & _ & _ & _ & Hback & _).
    rewrite (proj1 (Hback ltac:(rewrite Hrest; vm_compute; discriminate)
                      ltac:(vm_compute; discriminate))).
    rewrite Hrest. vm_compute. reflexivity.
  - split; [reflexivity|]. split; [discriminate|].
    destruct (C3_dead_flush_insert_failure floodDeadConfig floodDead
                (ThrownOther "timeout") 8%Z eq_refl ltac:(discriminate))
      as (batch & s1 & _ & -> & _ & Hrest & _ & Hfail & Hrun & Hthrows).
    destruct (Hfail s1) as (_ & _ & _ & _ & _ & _ & Hlost & _).
    destruct (Hlost ltac:(rewrite Hrest; vm_compute; discriminate)
                ltac:(vm_compute; reflexivity)) as (Hd & _ & Ht).
    split; [rewrite Hrun, Hd, Hrest; vm_compute; reflexivity|].
    split; [vm_compute; reflexivity|].
    rewrite Hthrows. exact Ht.
Defined.

(** ** What one step of each kind does to the queues and the totals *)

Lemma admit_resume_cases (cfg : Config) (req : Request) (amb : Ambient) (s : State) :
  let s' := (admit_resume cfg req amb s).1 in
  flushing s' = flushing s /\ deadFlushing s' = deadFlushing s /\
  ((exists record : RequestRecord,
       pending s' = pending s ++ [record] /\
       (Z.of_nat (length (pending s)) < maxQueueSize cfg)%Z /\
       deadLetters s' = deadLetters s /\
       totalDeadLetters s' = totalDeadLetters s /\
       totalRejected s' = totalRejected s)
   \/ (pending s' = pending s /\
       totalRejected s' = totalRejected s + 1 /\
       ((deadLetters s' = deadLetters s /\
         totalDeadLetters s' = totalDeadLetters s)
        \/ (exists dl : DeadLetterRecord,
               deadLetters s' = deadLetters s ++ [dl] /\
               (Z.of_nat (length (deadLetters s)) < maxDeadQueueSize cfg)%Z /\
               totalDeadLetters s' = totalDeadLetters s + 1)))).
Proof.
  unfold admit_resume, admit_settle, enqueueDeadLetter.
  destruct (req_body req) as [text|cause].
  - destruct (Z.leb_spec (maxQueueSize cfg) (Z.of_nat (length (pending s)))).
    + destruct (Z.leb_spec (maxDeadQueueSize cfg) (Z.of_nat (length (deadLetters s))));
        cbn; (split; [reflexivity|]); (split; [reflexivity|]); right;
        (split; [reflexivity|]); (split; [reflexivity|]).
      * left. auto.
      * right. eexists. split; [reflexivity|]. split; [assumption|reflexivity].
    + cbn. split; [reflexivity|]. split; [reflexivity|]. left.
      eexists. split; [reflexivity|]. auto.
  - destruct (Z.leb_spec (maxDeadQueueSize cfg) (Z.of_nat (length (deadLetters s))));
      cbn; (split; [reflexivity|]); (split; [reflexivity|]); right;
      (split; [reflexivity|]); (split; [reflexivity|]).
    + left. auto.
    + right. eexists. split; [reflexivity|]. split; [assumption|reflexivity].
Qed.

Lemma flushQueue_begin_cases (cfg : Config) (s : State) :
  (flushQueue_begin cfg s = (s, None) /\ (flushing s = true \/ pending s = []))
  \/ (flushing s = false /\
      flushQueue_begin cfg s
      = (set_pending (drop (Z.to_nat (batchSize cfg)) (pending s))
           (set_flushing true s),
         Some (take (Z.to_nat (batchSize cfg)) (pending s)))).
Proof.
  destruct (flushing s) eqn:Hf.
  - left. split; [apply flushQueue_begin_idle|]; auto.
  - destruct (pending s) as [|r rest] eqn:Hp.
    + left. split; [apply flushQueue_begin_idle|]; auto.
    + right. split; [reflexivity|]. rewrite <- Hp.
      apply flushQueue_begin_runs; [exact Hf | rewrite Hp; discriminate].
Qed.

Lemma flushDeadLetters_begin_cases (cfg : Config) (s : State) :
  (flushDeadLetters_begin cfg s = (s, None) /\
   (deadFlushing s = true \/ deadLetters s = []))
  \/ (deadFlushing s = false /\
      flushDeadLetters_begin cfg s
      = (set_deadLetters (drop (Z.to_nat (batchSize cfg)) (deadLetters s))
           (set_deadFlushing true s),
         Some (take (Z.to_nat (batchSize cfg)) (deadLetters s)))).
Proof.
  destruct (deadFlushing s) eqn:Hf.
  - left. split; [apply flushDeadLetters_begin_idle|]; auto.
  - destruct (deadLetters s) as [|r rest] eqn:Hp.
    + left. split; [apply flushDeadLetters_begin_idle|]; auto.
    + right. split; [reflexivity|]. rewrite <- Hp.
      apply flushDeadLetters_begin_runs; [exact Hf | rewrite Hp; discriminate].
Qed.

Lemma flushQueue_resume_frame (cfg : Config) (batch : list RequestRecord)
    (r : db_result)
    (at_ms : Z) (s : State) :
  let s' := flushQueue_resume cfg batch r at_ms s in
  pending s' = pending s /\ totalDeadLetters s' = totalDeadLetters s /\
  totalRejected s' = totalRejected s /\ totalReceived s' = totalReceived s /\
  deadFlushing s' = deadFlushing s /\ flushing s' = false.
Proof.
  unfold flushQueue_resume. destruct r as [|cause]; [cbn; auto 10|].
  destruct (spread_refused _ _); cbn; auto 10.
Qed.

Lemma flushDeadLetters_resume_frame (cfg : Config) (batch : list DeadLetterRecord)
    (r : db_result) (at_ms : Z) (s : State) :
  let s' := flushDeadLetters_resume cfg batch r at_ms s in
  pending s' = pending s /\ totalDeadLetters s' = totalDeadLetters s /\
  totalRejected s' = totalRejected s /\ totalReceived s' = totalReceived s /\
  flushing s' = flushing s /\ deadFlushing s' = false /\
  ((Z.of_nat (length (deadLetters s)) <= maxDeadQueueSize cfg)%Z ->
   (Z.of_nat (length (deadLetters s')) <= maxDeadQueueSize cfg)%Z).
Proof.
  unfold flushDeadLetters_resume. destruct r as [|cause].
  - cbn. auto 10.
  - cbn [formatError].
    change (deadLetters (set_lastDeadFlushError _ (set_totalDbErrors _ s)))
      with (deadLetters s).
    destruct (Z.leb_spec
                (Z.of_nat (length (deadLetters s)
                           + length (map (requeued (formatError cause)) batch)))
                (maxDeadQueueSize cfg)) as [Hfit|Hover];
      [destruct (spread_refused _ _)|]; cbn.
    + auto 10.
    + repeat (split; [reflexivity|]). intros _.
      rewrite length_app. lia.
    + auto 10.
Qed.

(** ** Invariants of the reachable worlds *)

Lemma reachable_invariant (cfg : Config) (P : World -> Prop) :
  P initialWorld ->
  (forall w w', reachable cfg w -> P w -> step cfg w w' -> P w') ->
  forall w, reachable cfg w -> P w.
Proof.
  intros Hinit Hstep. unfold reachable in *.
  apply rtc_ind_r; [exact Hinit|].
  intros w w' Hreach Hww' HP. exact (Hstep w w' Hreach HP Hww').
Qed.

(** The in-flight flags say exactly which flush cycle is suspended at its
    insert, so a cycle never starts while its batch is still awaited. *)
Lemma flags_track_awaits (cfg : Config) (w : World) :
  reachable cfg w ->
  (flushing (st w) = true <-> is_Some (awaiting_insert w)) /\
  (deadFlushing (st w) = true <-> is_Some (awaiting_dead_insert w)).
Proof.
  revert w. apply reachable_invariant.
  - cbn. split; split; intros H; try discriminate; destruct H; discriminate.
  - intros w w' _ [Hf Hd] Hstep.
    destruct Hstep as [req amb w Hne | req w Hev | req amb before after w Haw
                      | w | batch r t w Haw | w | batch r t w Haw];
      cbn [st awaiting_insert awaiting_dead_insert].
    + rewrite other_route by exact Hne. auto.
    + auto.
    + destruct (admit_resume_cases cfg req amb (st w)) as (-> & -> & _). auto.
    + destruct (flushQueue_begin_cases cfg (st w)) as [[-> _] | [Hidle ->]]; cbn.
      * auto.
      * split; [split; eauto|exact Hd].
    + destruct (flushQueue_resume_frame cfg batch r t (st w))
        as (_ & _ & _ & _ & -> & ->).
      split; [|exact Hd].
      split; intros H; [discriminate | destruct H; discriminate].
    + destruct (flushDeadLetters_begin_cases cfg (st w)) as [[-> _] | [Hidle ->]]; cbn.
      * auto.
      * split; [exact Hf|split; eauto].
    + destruct (flushDeadLetters_resume_frame cfg batch r t (st w))
        as (_ & _ & _ & _ & -> & -> & _).
      split; [exact Hf|].
      split; intros H; [discriminate | destruct H; discriminate].
Qed.

(** The Record Queue never holds more than [maxQueueSize] records. *)
Lemma pending_bounded (cfg : Config) (w : World) :
  (0 <= maxQueueSize cfg)%Z ->
  reachable cfg w ->
  (Z.of_nat (length (pending (st w))) <= maxQueueSize cfg)%Z.
Proof.
  intros Hmax. revert w. apply reachable_invariant.
  - cbn. exact Hmax.
  - intros w w' _ IH Hstep.
    destruct Hstep as [req amb w Hne | req w Hev | req amb before after w Haw
                      | w | batch r t w Haw | w | batch r t w Haw];
      cbn [st awaiting_insert awaiting_dead_insert].
    + rewrite other_route by exact Hne. exact IH.
    + exact IH.
    + destruct (admit_resume_cases cfg req amb (st w))
        as (_ & _ & [(record & -> & Hroom & _) | (-> & _)]); [|exact IH].
      rewrite length_app. simpl. lia.
    + destruct (flushQueue_begin_cases cfg (st w)) as [[-> _] | [_ ->]]; cbn;
        [exact IH|].
      rewrite length_drop. lia.
    + destruct (flushQueue_resume_frame cfg batch r t (st w)) as (-> & _). exact IH.
    + destruct (flushDeadLetters_begin_cases cfg (st w)) as [[-> _] | [_ ->]]; cbn;
        exact IH.
    + destruct (flushDeadLetters_resume_frame cfg batch r t (st w)) as (-> & _).
      exact IH.
Qed.

(** Every step keeps the Dead-Letter Queue within [maxDeadQueueSize], except
    the failure branch of [flushQueue]. *)
Lemma dead_letters_bounded_step (cfg : Config) (w w' : World) :
  step cfg w w' ->
  (Z.of_nat (length (deadLetters (st w))) <= maxDeadQueueSize cfg)%Z ->
  (Z.of_nat (length (deadLetters (st w'))) <= maxDeadQueueSize cfg)%Z
  \/ exists (batch : list RequestRecord) (cause : thrown) (at_ms : Z),
       awaiting_insert w = Some batch /\
       st w' = flushQueue_resume cfg batch (InsertFailed cause) at_ms (st w).
Proof.
  intros Hstep IH.
  destruct Hstep as [req amb w Hne | req w Hev | req amb before after w Haw
                    | w | batch r t w Haw | w | batch r t w Haw]; cbn [st].
  - left. rewrite other_route by exact Hne. exact IH.
  - left. exact IH.
  - left. destruct (admit_resume_cases cfg req amb (st w))
      as (_ & _ & [(record & _ & _ & -> & _)
                  | (_ & _ & [[-> _] | (dl & -> & Hroom & _)])]);
      try exact IH.
    rewrite length_app. simpl. lia.
  - left. destruct (flushQueue_begin_cases cfg (st w)) as [[-> _] | [_ ->]];
      exact IH.
  - destruct r as [|cause]; [left; exact IH|].
    right. exists batch, cause, t. auto.
  - left. destruct (flushDeadLetters_begin_cases cfg (st w)) as [[-> _] | [_ ->]];
      cbn; [exact IH|].
    rewrite length_drop. lia.
  - left. apply flushDeadLetters_resume_frame. exact IH.
Qed.

(** [totalDeadLetters] never runs ahead of [totalRejected]: it only moves
    when the gate rejects a request. *)
Lemma totalDeadLetters_le_totalRejected (cfg : Config) (w : World) :
  reachable cfg w -> totalDeadLetters (st w) <= totalRejected (st w).
Proof.
  revert w. apply reachable_invariant.
  - cbn. lia.
  - intros w w' _ IH Hstep.
    destruct Hstep as [req amb w Hne | req w Hev | req amb before after w Haw
                      | w | batch r t w Haw | w | batch r t w Haw];
      cbn [st awaiting_insert awaiting_dead_insert].
    + rewrite other_route by exact Hne. exact IH.
    + exact IH.
    + destruct (admit_resume_cases cfg req amb (st w))
        as (_ & _ & [(record & _ & _ & _ & -> & ->)
                    | (_ & -> & [[_ ->] | (dl & _ & _ & ->)])]); lia.
    + destruct (flushQueue_begin_cases cfg (st w)) as [[-> _] | [_ ->]]; exact IH.
    + destruct (flushQueue_resume_frame cfg batch r t (st w)) as (_ & -> & -> & _).
      exact IH.
    + destruct (flushDeadLetters_begin_cases cfg (st w)) as [[-> _] | [_ ->]];
        exact IH.
    + destruct (flushDeadLetters_resume_frame cfg batch r t (st w))
        as (_ & -> & -> & _).
      exact IH.
Qed.

(** C9: neither flush cycle ever changes [totalDeadLetters], at its start or
    when its insert settles, whether the insert succeeds or fails: the
    records a failed [flushQueue] appends to the Dead-Letter Queue and the
    records a failed [flushDeadLetters] puts back are not counted (after the
    failed flush of two records the Dead-Letter Queue holds two and the
    counter is still 0).  A request handled by the gate raises the counter by
    exactly the number of records it appended to the Dead-Letter Queue. *)
Theorem C9_totalDeadLetters_counts_admissions_only :
  (forall (cfg : Config) (s : State),
      totalDeadLetters (flushQueue_begin cfg s).1 = totalDeadLetters s /\
      totalDeadLetters (flushDeadLetters_begin cfg s).1 = totalDeadLetters s) /\
  (forall (cfg : Config) (batch : list RequestRecord)
          (dead : list DeadLetterRecord) (r : db_result) (at_ms : Z) (s : State),
      totalDeadLetters (flushQueue_resume cfg batch r at_ms s) = totalDeadLetters s /\
      totalDeadLetters (flushDeadLetters_resume cfg dead r at_ms s)
      = totalDeadLetters s) /\
  (forall (cfg : Config) (r : db_result) (at_ms : Z) (s : State),
      totalDeadLetters (flushQueue cfg r at_ms s) = totalDeadLetters s /\
      totalDeadLetters (flushDeadLetters cfg r at_ms s) = totalDeadLetters s) /\
  (length (deadLetters afterFailedFlush) = 2 /\
   totalDeadLetters afterFailedFlush = 0) /\
  (forall (cfg : Config) (req : Request) (amb : Ambient) (s : State),
      let s' := (handleRequest cfg req amb s).1 in
      totalDeadLetters s' + length (deadLetters s)
      = totalDeadLetters s + length (deadLetters s')).
Proof.
  assert (Hbegin : forall cfg s,
             totalDeadLetters (flushQueue_begin cfg s).1 = totalDeadLetters s /\
             totalDeadLetters (flushDeadLetters_begin cfg s).1 = totalDeadLetters s).
  { intros cfg s. split.
    - destruct (flushQueue_begin_cases cfg s) as [[-> _] | [_ ->]]; reflexivity.
    - destruct (flushDeadLetters_begin_cases cfg s) as [[-> _] | [_ ->]];
        reflexivity. }
  assert (Hresume : forall cfg batch dead r at_ms s,
             totalDeadLetters (flushQueue_resume cfg batch r at_ms s)
             = totalDeadLetters s /\
             totalDeadLetters (flushDeadLetters_resume cfg dead r at_ms s)
             = totalDeadLetters s).
  { intros cfg batch dead r at_ms s. split.
    - apply flushQueue_resume_frame.
    - apply flushDeadLetters_resume_frame. }
  split; [exact Hbegin|]. split; [exact Hresume|].
  split; [|split; [split; reflexivity|]].
  - intros cfg r at_ms s. unfold flushQueue, flushDeadLetters. split.
    + destruct (flushQueue_begin_cases cfg s) as [[-> _] | [_ ->]]; [reflexivity|].
      rewrite (proj1 (Hresume cfg _ [] r at_ms _)). reflexivity.
    + destruct (flushDeadLetters_begin_cases cfg s) as [[-> _] | [_ ->]];
        [reflexivity|].
      rewrite (proj2 (Hresume cfg [] _ r at_ms _)). reflexivity.
  - intros cfg req amb s s'. subst s'.
    destruct (is_events req) eqn:Hev.
    + rewrite (events_route _ _ _ _ Hev).
      destruct (admit_resume_cases cfg req amb (admit_begin s))
        as (_ & _ & [(record & _ & _ & -> & -> & _)
                    | (_ & _ & [[-> ->] | (dl & -> & _ & ->)])]);
        cbn; rewrite ?length_app; simpl; lia.
    + rewrite other_route by exact Hev. lia.
Qed.

(** Every reachable state has a histogram of the right shape. *)
Lemma histogram_shape_reachable (cfg : Config) (w : World) :
  reachable cfg w -> histogram_shape (st w).
Proof.
  revert w. apply reachable_invariant.
  - exact initialState_shape.
  - intros w w' _ IH Hstep.
    destruct Hstep as [req amb w Hne | req w Hev | req amb before after w Haw
                      | w | batch r t w Haw | w | batch r t w Haw];
      cbn [st awaiting_insert awaiting_dead_insert].
    + rewrite other_route by exact Hne. exact IH.
    + exact IH.
    + unfold admit_resume.
      destruct (admit_settle cfg req amb (st w)) as [s1 response] eqn:Hsettle.
      apply recordLatency_shape.
      replace s1 with (admit_settle cfg req amb (st w)).1 by (rewrite Hsettle; reflexivity).
      unfold histogram_shape, admit_settle, enqueueDeadLetter.
      destruct (req_body req);
        repeat match goal with |- context [if ?b then _ else _] => destruct b end;
        exact IH.
    + destruct (flushQueue_begin_cases cfg (st w)) as [[-> _] | [_ ->]]; exact IH.
    + unfold histogram_shape, flushQueue_resume.
      destruct r; [|destruct (spread_refused _ _)]; exact IH.
    + destruct (flushDeadLetters_begin_cases cfg (st w)) as [[-> _] | [_ ->]];
        exact IH.
    + unfold histogram_shape, flushDeadLetters_resume. destruct r; [exact IH|].
      repeat match goal with |- context [if ?b then _ else _] => destruct b end;
        exact IH.
Qed.

(** ** The Dead-Letter Queue bound *)

(** From any state whose Dead-Letter Queue is exactly full, a failed flush of
    a non-empty Record Queue leaves it above [maxDeadQueueSize], when a whole
    batch can be spread in one call. *)
Lemma failed_flush_overfills (cfg : Config) (s : State) (cause : thrown) (at_ms : Z) :
  flushing s = false -> pending s <> [] -> (0 < batchSize cfg)%Z ->
  (batchSize cfg <= maxArguments cfg)%Z ->
  Z.of_nat (length (deadLetters s)) = maxDeadQueueSize cfg ->
  (maxDeadQueueSize cfg
     < Z.of_nat (length (deadLetters (flushQueue cfg (InsertFailed cause) at_ms s))))%Z.
Proof.
  intros Hidle Hne Hbatch Hspread Hfull. unfold flushQueue.
  rewrite (flushQueue_begin_runs cfg s Hidle Hne).
  destruct (flushQueue_resume_failed cfg
              (take (Z.to_nat (batchSize cfg)) (pending s)) cause at_ms
              (set_pending (drop (Z.to_nat (batchSize cfg)) (pending s))
                 (set_flushing true s)))
    as (_ & _ & _ & _ & _ & Hok & _).
  rewrite (proj1 (Hok ltac:(rewrite length_take; lia))).
  cbn. rewrite length_app, length_map, length_take.
  destruct (pending s) as [|record rest]; [contradiction|]. simpl. lia.
Qed.

Lemma overfullWorld_reachable : reachable smallConfig overfullWorld.
Proof.
  unfold reachable.
  eapply rtc_l; [exact (step_admit_begin smallConfig (post "a") _ eq_refl)|].
  eapply rtc_l;
    [apply (step_admit_resume smallConfig (post "a") (ambient "u1") [] []);
     reflexivity|].
  eapply rtc_l; [exact (step_admit_begin smallConfig (post "b") _ eq_refl)|].
  eapply rtc_l;
    [apply (step_admit_resume smallConfig (post "b") (ambient "u2") [] []);
     reflexivity|].
  eapply rtc_l; [exact (step_flush_begin smallConfig _)|].
  eapply rtc_l;
    [apply (step_flush_resume smallConfig
              (take (Z.to_nat (batchSize smallConfig)) (pending twoPending))
              (InsertFailed (ThrownError "down")) 7%Z);
     vm_compute; reflexivity|].
  vm_compute. apply rtc_refl.
Qed.

(** C1, the part the code breaks: with [maxDeadQueueSize = 1], accepting two
    requests and failing their flush reaches a world whose Dead-Letter Queue
    holds two records.  The Record Queue stays within its bound there. *)
Theorem C1_dead_letter_queue_exceeds_bound :
  reachable smallConfig overfullWorld /\
  length (deadLetters (st overfullWorld)) = 2 /\
  maxDeadQueueSize smallConfig = 1%Z /\
  (maxDeadQueueSize smallConfig
     < Z.of_nat (length (deadLetters (st overfullWorld))))%Z /\
  (Z.of_nat (length (pending (st overfullWorld))) <= maxQueueSize smallConfig)%Z.
Proof.
  split; [exact overfullWorld_reachable|].
  split; [reflexivity|]. split; [reflexivity|]. split; [reflexivity|].
  apply pending_bounded; [discriminate | exact overfullWorld_reachable].
Qed.

(** * Further properties of the code *)

(** ** The histogram counts samples *)

Lemma sum_take_alter (l : list nat) :
  forall n k : nat,
    k < length l ->
    sum_list (take n (alter S k l))
    = sum_list (take n l) + (if k <? n then 1 else 0).
Proof.
  induction l as [|a l IH]; intros n k Hk; simpl in Hk; [lia|].
  destruct n as [|n]; [reflexivity|].
  destruct k as [|k]; cbn [alter list_alter take sum_list foldr].
  - simpl. lia.
  - rewrite (IH n k) by lia.
    change (S k <? S n) with (k <? n). lia.
Qed.

Lemma sum_alter (l : list nat) (k : nat) :
  k < length l -> sum_list (alter S k l) = sum_list l + 1.
Proof.
  intros Hk.
  pose proof (sum_take_alter l (length l) k Hk) as H.
  rewrite <- (length_alter S l k) in H at 1.
  rewrite !firstn_all in H.
  destruct (Nat.ltb_spec k (length l)); [exact H | lia].
Qed.

(** The slot [recordLatency] picks is at or below slot [i] exactly when the
    value is at most the bound of slot [i]. *)
Lemma cumulative_recordLatency (v : Q) (s : State) (i : nat) (b : Z) :
  histogram_shape s ->
  latencyBucketsMs !! i = Some b ->
  cumulativeUpTo i (recordLatency v s)
  = cumulativeUpTo i s + (if Qle_bool v (inject_Z b) then 1 else 0).
Proof.
  intros Hshape Hi. unfold histogram_shape in Hshape.
  rewrite buckets_length in Hshape.
  pose proof (lookup_lt_Some _ _ _ Hi) as Hlt. rewrite buckets_length in Hlt.
  unfold cumulativeUpTo, recordLatency.
  destruct (findIndex _ latencyBucketsMs) as [k|] eqn:Hfind;
    cbn [latencyHistogram set_latency].
  - destruct (findIndex_Some _ _ _ Hfind) as [[bk [Hk Hle]] Hbefore].
    pose proof (lookup_lt_Some _ _ _ Hk) as Hklt. rewrite buckets_length in Hklt.
    rewrite sum_take_alter by lia. f_equal.
    destruct (Nat.ltb_spec k (S i)) as [Hki|Hki].
    + assert (Hb : (bk <= b)%Z)
        by (apply (buckets_increasing k i); [lia | exact Hk | exact Hi]).
      assert (Hvb : (v <= inject_Z b)%Q).
      { apply Qle_bool_iff in Hle. eapply Qle_trans; [exact Hle|].
        rewrite <- Zle_Qle. exact Hb. }
      apply Qle_bool_iff in Hvb. rewrite Hvb. reflexivity.
    + rewrite (Hbefore i b) by (exact Hi || lia). reflexivity.
  - rewrite sum_take_alter by lia.
    rewrite (findIndex_None _ _ Hfind i b Hi). f_equal.
    destruct (Nat.ltb_spec (length (latencyHistogram s) - 1) (S i)); [lia|reflexivity].
Qed.

Lemma recordAll_shape (vs : list Q) (s : State) :
  histogram_shape s -> histogram_shape (recordAll vs s).
Proof.
  revert s; induction vs as [|v vs IH]; intros s Hs; [exact Hs|].
  apply IH, recordLatency_shape, Hs.
Qed.

Lemma recordAll_counts (vs : list Q) (s : State) (i : nat) (b : Z) :
  histogram_shape s ->
  latencyBucketsMs !! i = Some b ->
  cumulativeUpTo i (recordAll vs s) = cumulativeUpTo i s + count_le b vs /\
  latencyCount (recordAll vs s) = latencyCount s + length vs.
Proof.
  intros Hshape Hi. revert s Hshape.
  induction vs as [|v vs IH]; intros s Hshape.
  - simpl. split; lia.
  - change (recordAll (v :: vs) s) with (recordAll vs (recordLatency v s)).
    destruct (IH (recordLatency v s) (recordLatency_shape v s Hshape)) as [Hc Hn].
    rewrite Hc, Hn, (cumulative_recordLatency v s i b Hshape Hi).
    cbn [count_le length latencyCount recordLatency set_latency]. split; lia.
Qed.

Lemma cumulativeUpTo_initialState (i : nat) : cumulativeUpTo i initialState = 0.
Proof.
  unfold cumulativeUpTo, initialState; cbn [latencyHistogram].
  rewrite take_replicate, sum_list_replicate. lia.
Qed.

(** X1: after any samples are recorded, the cumulative count of a bound has
    grown by exactly the number of those samples that are at most the bound,
    and [latencyCount] by the number of samples. *)
Theorem histogram_counts_samples (vs : list Q) (s : State) (i : nat) (b : Z) :
  histogram_shape s ->
  latencyBucketsMs !! i = Some b ->
  cumulativeUpTo i (recordAll vs s) = cumulativeUpTo i s + count_le b vs /\
  latencyCount (recordAll vs s) = latencyCount s + length vs.
Proof. apply recordAll_counts. Qed.

Lemma histogram_counts_samples_witness :
  cumulativeUpTo 2 (recordAll [1; 3; 1000; 50000]%Q initialState)
  = count_le 5 [1; 3; 1000; 50000]%Q /\
  count_le 5 [1; 3; 1000; 50000]%Q = 2.
Proof.
  split; [|reflexivity].
  exact (proj1 (histogram_counts_samples [1; 3; 1000; 50000]%Q initialState 2 5%Z
                  eq_refl eq_refl)).
Defined.

Lemma count_le_all (b : Z) (vs : list Q) :
  Forall (fun v => (v <= inject_Z b)%Q) vs -> count_le b vs = length vs.
Proof.
  induction 1 as [|v vs Hv _ IH]; [reflexivity|].
  cbn [count_le length]. apply Qle_bool_iff in Hv. rewrite Hv, IH. reflexivity.
Qed.

(** X2: when fewer than 2^53 samples have been recorded from the start, none
    of them above 10000, and [p] is at most 1, the number of samples that are
    at most [percentile p] is at least the threshold (the product of the
    sample count and [p], as the multiplication of two doubles gives it), and
    no smaller bound of the table has that many samples at or below it. *)
Theorem percentile_covers_fraction (vs : list Q) (p : Q) :
  vs <> [] ->
  Forall (fun v => (v <= inject_Z 10000)%Q) vs ->
  (p <= 1)%Q ->
  (Z.of_nat (length vs) < 2 ^ 53)%Z ->
  let s := recordAll vs initialState in
  let threshold := round_double (inject_Z (Z.of_nat (length vs)) * p) in
  (threshold <= inject_Z (Z.of_nat (count_le (percentile p s) vs)))%Q /\
  forall (j : nat) (b' : Z),
    latencyBucketsMs !! j = Some b' -> (b' < percentile p s)%Z ->
    (inject_Z (Z.of_nat (count_le b' vs)) < threshold)%Q.
Proof.
  intros Hne Hall Hp Hsmall s threshold.
  assert (Hshape : histogram_shape s)
    by (apply recordAll_shape, initialState_shape).
  assert (Hcum : forall i b, latencyBucketsMs !! i = Some b ->
                   cumulativeUpTo i s = count_le b vs).
  { intros i b Hi. subst s.
    rewrite (proj1 (recordAll_counts vs initialState i b eq_refl Hi)).
    rewrite cumulativeUpTo_initialState. reflexivity. }
  assert (Hcount : latencyCount s = length vs).
  { exact (proj2 (recordAll_counts vs initialState 0 1%Z eq_refl eq_refl)). }
  unfold percentile. rewrite Hcount.
  destruct (length vs =? 0) eqn:Hz.
  { apply Nat.eqb_eq in Hz. destruct vs; [contradiction|discriminate]. }
  fold threshold.
  destruct (percentile_loop_spec threshold (latencyHistogram s) 0 0)
    as [(k & b & Hk & Hb & Hres & Hle & Hfirst) | [Hres Hnone]].
  - simpl in Hb, Hle, Hfirst. rewrite Hres. split.
    + rewrite <- (Hcum k b Hb). exact Hle.
    + intros j b' Hj Hlt.
      assert (Hjk : j < k).
      { destruct (le_lt_dec k j) as [Hkj|Hjk]; [|exact Hjk].
        pose proof (buckets_increasing k j b b' Hkj Hb Hj). lia. }
      apply Qnot_le_lt. rewrite <- (Hcum j b' Hj). exact (Hfirst j Hjk).
  - exfalso. apply (Hnone 12 10000%Z).
    + unfold histogram_shape in Hshape. rewrite buckets_length in Hshape. lia.
    + reflexivity.
    + change (0 + sum_list (take 13 (latencyHistogram s)))
        with (cumulativeUpTo 12 s).
      rewrite (Hcum 12 10000%Z eq_refl), (count_le_all _ _ Hall).
      subst threshold. apply round_double_le_Z; [lia|].
      assert (H0 : (0 <= inject_Z (Z.of_nat (length vs)))%Q).
      { change 0%Q with (inject_Z 0). rewrite <- Zle_Qle. lia. }
      nra.
Qed.

Lemma percentile_covers_fraction_witness :
  let vs := [1; 3; 1000; 7000]%Q in
  percentile (1 # 2) (recordAll vs initialState) = 5%Z /\
  (round_double (inject_Z (Z.of_nat (length vs)) * (1 # 2))
     <= inject_Z (Z.of_nat (count_le 5 vs)))%Q.
Proof.
  split; [vm_compute; reflexivity|].
  exact (proj1 (percentile_covers_fraction [1; 3; 1000; 7000]%Q (1 # 2)
                  ltac:(discriminate)
                  ltac:(repeat constructor; discriminate)
                  ltac:(discriminate)
                  ltac:(reflexivity))).
Defined.

(** The bound [percentile] reports when its loop stops at slot [i]. *)
Lemma percentile_loop_lower (threshold : Q) (rest : list nat) (i j cumulative : nat) :
  i <= j ->
  ((if (i <? length latencyBucketsMs)%nat then nth i latencyBucketsMs 0%Z
    else lastBucketMs)
   <= percentile_loop threshold j cumulative rest)%Z.
Proof.
  intros Hij.
  destruct (percentile_loop_spec threshold rest j cumulative)
    as [(k & b & _ & Hb & -> & _) | [-> _]].
  - pose proof (lookup_lt_Some _ _ _ Hb) as Hlt.
    destruct (Nat.ltb_spec i (length latencyBucketsMs)) as [Hi|Hi]; [|lia].
    destruct (lookup_lt_is_Some_2 latencyBucketsMs i Hi) as [bi Hbi].
    rewrite nth_lookup, Hbi. simpl.
    apply (buckets_increasing i (j + k)); [lia | exact Hbi | exact Hb].
  - destruct (Nat.ltb_spec i (length latencyBucketsMs)) as [Hi|Hi];
      [|rewrite lastBucketMs_eq; lia].
    destruct (lookup_lt_is_Some_2 latencyBucketsMs i Hi) as [bi Hbi].
    rewrite nth_lookup, Hbi. simpl.
    apply (buckets_increasing i 12 bi 10000); [|exact Hbi|reflexivity].
    rewrite buckets_length in Hi. lia.
Qed.

Lemma percentile_loop_mono (t1 t2 : Q) (rest : list nat) :
  (t1 <= t2)%Q ->
  forall i cumulative : nat,
    (percentile_loop t1 i cumulative rest
     <= percentile_loop t2 i cumulative rest)%Z.
Proof.
  intros Ht. induction rest as [|count rest IH]; intros i cumulative;
    cbn [percentile_loop]; [lia|].
  destruct (Qle_bool t2 (inject_Z (Z.of_nat (cumulative + count)))) eqn:H2.
  - apply Qle_bool_iff in H2.
    assert (H1 : (t1 <= inject_Z (Z.of_nat (cumulative + count)))%Q)
      by (eapply Qle_trans; eauto).
    apply Qle_bool_iff in H1. rewrite H1. lia.
  - destruct (Qle_bool t1 (inject_Z (Z.of_nat (cumulative + count)))).
    + apply percentile_loop_lower. lia.
    + apply IH.
Qed.

(** X3: [percentile] answers 0 (only when there is no sample) or one of the
    bounds of the table, never a number outside it; and it grows with [p], so
    the p50, p95 and p99 gauges never come out of order. *)
Theorem percentile_in_table_and_monotone (s : State) :
  (forall p : Q,
      (latencyCount s = 0 /\ percentile p s = 0%Z) \/
      (latencyCount s <> 0 /\ percentile p s ∈ latencyBucketsMs)) /\
  (forall p q : Q, (p <= q)%Q -> (percentile p s <= percentile q s)%Z).
Proof.
  split.
  - intros p. unfold percentile.
    destruct (Nat.eqb_spec (latencyCount s) 0) as [Hz|Hz]; [left; auto|].
    right. split; [exact Hz|].
    destruct (percentile_loop_spec
                (round_double (inject_Z (Z.of_nat (latencyCount s)) * p))
                (latencyHistogram s) 0 0)
      as [(k & b & _ & Hb & -> & _) | [-> _]].
    + eapply list_elem_of_lookup_2. exact Hb.
    + apply (list_elem_of_lookup_2 latencyBucketsMs 12). reflexivity.
  - intros p q Hpq. unfold percentile.
    destruct (latencyCount s =? 0); [lia|].
    apply percentile_loop_mono, round_double_mono.
    assert (H0 : (0 <= inject_Z (Z.of_nat (latencyCount s)))%Q).
    { change 0%Q with (inject_Z 0). rewrite <- Zle_Qle. lia. }
    nra.
Qed.

Lemma percentile_in_table_and_monotone_witness :
  percentile (1 # 2) sampleState = 5%Z /\
  percentile (99 # 100) sampleState = 10000%Z /\
  (percentile (1 # 2) sampleState <= percentile (99 # 100) sampleState)%Z.
Proof.
  split; [reflexivity|]. split; [reflexivity|].
  apply (proj2 (percentile_in_table_and_monotone sampleState)). discriminate.
Defined.

(** ** Accounting of the totals *)

Lemma admit_settle_frame (cfg : Config) (req : Request) (amb : Ambient) (s : State) :
  let s1 := (admit_settle cfg req amb s).1 in
  latencyHistogram s1 = latencyHistogram s /\
  latencyCount s1 = latencyCount s /\
  totalReceived s1 = totalReceived s /\
  totalDbErrors s1 = totalDbErrors s /\
  totalAccepted s1 + totalRejected s1 = totalAccepted s + totalRejected s + 1.
Proof.
  unfold admit_settle, enqueueDeadLetter.
  destruct (req_body req);
    repeat match goal with |- context [if ?b then _ else _] => destruct b end;
    cbn; repeat split; lia.
Qed.

Lemma recordLatency_sum (v : Q) (s : State) :
  histogram_shape s ->
  sum_list (latencyHistogram (recordLatency v s))
  = sum_list (latencyHistogram s) + 1.
Proof.
  intros Hshape. unfold histogram_shape in Hshape.
  rewrite buckets_length in Hshape. unfold recordLatency.
  destruct (findIndex _ latencyBucketsMs) as [k|] eqn:Hfind;
    cbn [latencyHistogram set_latency]; apply sum_alter; [|lia].
  destruct (findIndex_Some _ _ _ Hfind) as [[bk [Hk _]] _].
  apply lookup_lt_Some in Hk. rewrite buckets_length in Hk. lia.
Qed.

Lemma admit_resume_totals (cfg : Config) (req : Request) (amb : Ambient) (s : State) :
  histogram_shape s ->
  let s' := (admit_resume cfg req amb s).1 in
  sum_list (latencyHistogram s') = sum_list (latencyHistogram s) + 1 /\
  latencyCount s' = latencyCount s + 1 /\
  totalReceived s' = totalReceived s /\
  totalDbErrors s' = totalDbErrors s /\
  totalAccepted s' + totalRejected s' = totalAccepted s + totalRejected s + 1.
Proof.
  intros Hshape. unfold admit_resume.
  pose proof (admit_settle_frame cfg req amb s) as Hframe.
  destruct (admit_settle cfg req amb s) as [s1 response].
  cbn [fst] in *. destruct Hframe as (Hh & Hc & Hr & He & Ht).
  split.
  { rewrite recordLatency_sum; [rewrite Hh; reflexivity|].
    unfold histogram_shape. rewrite Hh. exact Hshape. }
  cbn. repeat split; lia.
Qed.

Lemma flush_steps_frame (cfg : Config) (s : State) :
  (forall s1 : State,
      s1 = (flushQueue_begin cfg s).1 \/ s1 = (flushDeadLetters_begin cfg s).1 \/
      (exists batch r t, s1 = flushQueue_resume cfg batch r t s) \/
      (exists batch r t, s1 = flushDeadLetters_resume cfg batch r t s) ->
      latencyHistogram s1 = latencyHistogram s /\
      latencyCount s1 = latencyCount s /\
      totalReceived s1 = totalReceived s /\
      totalAccepted s1 = totalAccepted s /\
      totalRejected s1 = totalRejected s).
Proof.
  intros s1 [-> | [-> | [(batch & r & t & ->) | (batch & r & t & ->)]]].
  - destruct (flushQueue_begin_cases cfg s) as [[-> _] | [_ ->]]; cbn; auto.
  - destruct (flushDeadLetters_begin_cases cfg s) as [[-> _] | [_ ->]]; cbn; auto.
  - unfold flushQueue_resume. destruct r; [cbn; auto|].
    destruct (spread_refused _ _); cbn; auto.
  - unfold flushDeadLetters_resume. destruct r; [cbn; auto|].
    repeat match goal with |- context [if ?b then _ else _] => destruct b end;
      cbn; auto.
Qed.

Lemma accounting_reachable (cfg : Config) (w : World) :
  reachable cfg w ->
  totalReceived (st w)
  = totalAccepted (st w) + totalRejected (st w) + length (awaiting_body w) /\
  latencyCount (st w) = totalAccepted (st w) + totalRejected (st w) /\
  sum_list (latencyHistogram (st w)) = latencyCount (st w).
Proof.
  revert w. apply reachable_invariant.
  - cbn. auto.
  - intros w w' Hreach (Hrec & Hlat & Hsum) Hstep.
    pose proof (histogram_shape_reachable cfg w Hreach) as Hshape.
    pose proof (flush_steps_frame cfg (st w)) as Hframe.
    destruct Hstep as [req amb w Hne | req w Hev | req amb before after w Haw
                      | w | batch r t w Haw | w | batch r t w Haw];
      cbn [st awaiting_body awaiting_insert awaiting_dead_insert].
    + rewrite other_route by exact Hne. auto.
    + cbn. rewrite length_app. simpl. repeat split; lia.
    + destruct (admit_resume_totals cfg req amb (st w) Hshape)
        as (Hs' & Hc' & Hr' & _ & Ht').
      rewrite Haw, length_app in Hrec. simpl in Hrec. rewrite length_app.
      repeat split; lia.
    + destruct (Hframe _ (or_introl eq_refl)) as (-> & -> & -> & -> & ->). auto.
    + destruct (Hframe (flushQueue_resume cfg batch r t (st w)))
        as (-> & -> & -> & -> & ->); eauto 10.
    + destruct (Hframe _ (or_intror (or_introl eq_refl)))
        as (-> & -> & -> & -> & ->). auto.
    + destruct (Hframe (flushDeadLetters_resume cfg batch r t (st w)))
        as (-> & -> & -> & -> & ->); eauto 10.
Qed.

(** X4: in every state the server can reach, the totals add up: every request
    received on the events route is accepted, rejected, or still waiting for
    its body; one latency sample has been recorded per request that was
    accepted or rejected, and the histogram slots sum to [latencyCount]; and
    [totalDeadLetters] never exceeds [totalRejected]. *)
Theorem totals_accounting (cfg : Config) (w : World) :
  reachable cfg w ->
  totalReceived (st w)
  = totalAccepted (st w) + totalRejected (st w) + length (awaiting_body w) /\
  latencyCount (st w) = totalAccepted (st w) + totalRejected (st w) /\
  sum_list (latencyHistogram (st w)) = latencyCount (st w) /\
  totalDeadLetters (st w) <= totalRejected (st w).
Proof.
  intros Hreach.
  destruct (accounting_reachable cfg w Hreach) as (H1 & H2 & H3).
  pose proof (totalDeadLetters_le_totalRejected cfg w Hreach). auto.
Qed.

Lemma totals_accounting_witness :
  totalReceived (st overfullWorld) = 2 /\
  totalReceived (st overfullWorld)
  = totalAccepted (st overfullWorld) + totalRejected (st overfullWorld)
    + length (awaiting_body overfullWorld).
Proof.
  split; [reflexivity|].
  exact (proj1 (totals_accounting smallConfig overfullWorld overfullWorld_reachable)).
Defined.

(** ** The histogram lines of the metrics page *)

Lemma bucketLines_loop_length (rest : list nat) :
  forall i cumulative : nat,
    length (bucketLines_loop i cumulative rest) = length rest.
Proof.
  induction rest as [|count rest IH]; intros i cumulative; [reflexivity|].
  cbn [bucketLines_loop length]. rewrite IH. reflexivity.
Qed.

Lemma bucketLines_loop_lookup (rest : list nat) :
  forall i cumulative k : nat,
    k < length rest ->
    bucketLines_loop i cumulative rest !! k
    = Some (bucketLine
              (if i + k <? length latencyBucketsMs
               then pretty (nth (i + k) latencyBucketsMs 0%Z)
               else "+Inf")
              (cumulative + sum_list (take (S k) rest))).
Proof.
  induction rest as [|count rest IH]; intros i cumulative k Hk; simpl in Hk; [lia|].
  cbn [bucketLines_loop]. destruct k as [|k].
  - rewrite Nat.add_0_r. cbn [lookup list_lookup take sum_list foldr].
    rewrite Nat.add_0_r. reflexivity.
  - change ((?x :: ?l) !! S k) with (l !! k).
    rewrite IH by lia.
    replace (S i + k) with (i + S k) by lia.
    cbn [take sum_list foldr]. rewrite Nat.add_assoc. reflexivity.
Qed.

Lemma sum_take_mono (l : list nat) :
  forall i j : nat, i <= j -> sum_list (take i l) <= sum_list (take j l).
Proof.
  induction l as [|a l IH]; intros i j Hij.
  - rewrite !take_nil. lia.
  - destruct i as [|i]; [simpl; lia|].
    destruct j as [|j]; [lia|].
    cbn [take sum_list foldr]. specialize (IH i j). lia.
Qed.

(** X5: in every state the server can reach, the histogram section of the
    metrics page has 14 bucket lines; the line of each bound carries the
    number of samples counted up to that bound's slot, these counts never
    decrease from one line to the next, and the last line, labelled [+Inf],
    carries [latencyCount], the number the [_count] line prints. *)
Theorem metrics_bucket_lines_cumulative (cfg : Config) (w : World) :
  reachable cfg w ->
  let s := st w in
  length (bucketLines s) = 14 /\
  (forall (i : nat) (b : Z),
      latencyBucketsMs !! i = Some b ->
      bucketLines s !! i = Some (bucketLine (pretty b) (cumulativeUpTo i s))) /\
  bucketLines s !! 13 = Some (bucketLine "+Inf" (latencyCount s)) /\
  countLine s = ("api_request_latency_ms_count " ++ pretty (latencyCount s))%string /\
  (forall i j : nat, i <= j -> cumulativeUpTo i s <= cumulativeUpTo j s).
Proof.
  intros Hreach s.
  pose proof (histogram_shape_reachable cfg w Hreach) as Hshape.
  destruct (accounting_reachable cfg w Hreach) as (_ & _ & Hsum).
  unfold histogram_shape in Hshape. rewrite buckets_length in Hshape.
  fold s in Hshape, Hsum. unfold bucketLines.
  split; [rewrite bucketLines_loop_length; exact Hshape|].
  split; [|split; [|split; [reflexivity|]]].
  - intros i b Hi.
    pose proof (lookup_lt_Some _ _ _ Hi) as Hlt.
    rewrite bucketLines_loop_lookup by (rewrite buckets_length in Hlt; lia).
    cbn [Nat.add]. apply Nat.ltb_lt in Hlt. rewrite Hlt.
    rewrite nth_lookup, Hi. reflexivity.
  - rewrite bucketLines_loop_lookup by lia.
    rewrite take_ge by lia. cbn [Nat.add]. rewrite Hsum. reflexivity.
  - intros i j Hij. unfold cumulativeUpTo. apply sum_take_mono. lia.
Qed.

Lemma metrics_bucket_lines_cumulative_witness :
  bucketLines (st overfullWorld) !! 13
  = Some (bucketLine "+Inf" 2) /\
  bucketLines (st overfullWorld) !! 0 = Some (bucketLine "1" 2).
Proof.
  destruct (metrics_bucket_lines_cumulative smallConfig overfullWorld
              overfullWorld_reachable) as (_ & Hline & Hinf & _).
  split; [exact Hinf | exact (Hline 0 1%Z eq_refl)].
Defined.

(** ** Outcomes of an admission *)

Lemma reject_body (cfg : Config) (req : Request) (amb : Ambient) (s : State)
    (cause : thrown) :
  is_events req = true -> req_body req = BodyFailed cause ->
  let record :=
    {| trace_id := traceIdOf req amb; received_at := now amb;
       method := req_method req; path := req_pathname req; payload := None |} in
  handleRequest cfg req amb s
  = (recordLatency (elapsedMs amb)
       (let s1 :=
          enqueueDeadLetter cfg record
            ("body_read_failed: " ++ formatError cause) (admit_begin s) in
        set_totalRejected (totalRejected s1 + 1) s1),
     {| status := 400; x_trace_id := Some (traceIdOf req amb);
        body := Text "Invalid request body" |}).
Proof.
  intros Hev Hbody record. rewrite (events_route _ _ _ _ Hev).
  unfold admit_resume, admit_settle. rewrite Hbody. reflexivity.
Qed.

Lemma enqueueDeadLetter_frame (cfg : Config) (record : RequestRecord)
    (err : string) (s : State) :
  let s' := enqueueDeadLetter cfg record err s in
  pending s' = pending s /\ totalAccepted s' = totalAccepted s /\
  totalRejected s' = totalRejected s.
Proof.
  unfold enqueueDeadLetter.
  destruct (_ <=? _)%Z; cbn; auto.
Qed.

(** X6: a request on the events route gets exactly one of three answers,
    decided by its body and by the room in the Record Queue when the body has
    been read: 400 when the body cannot be read, 503 when it reads and the
    queue holds [maxQueueSize] records or more, 202 otherwise.  Only the 202
    appends to the Record Queue and adds one to [totalAccepted]; the other two
    leave the Record Queue alone and add one to [totalRejected].  Every answer
    carries the trace id: the [x-trace-id] header of the request when it has
    one, the fresh UUID otherwise. *)
Theorem admission_outcome (cfg : Config) (req : Request) (amb : Ambient)
    (s : State) :
  is_events req = true ->
  let s' := (handleRequest cfg req amb s).1 in
  let response := (handleRequest cfg req amb s).2 in
  x_trace_id response
  = Some (match req_x_trace_id req with
          | Some given => given
          | None => randomUUID amb
          end) /\
  (((exists cause, req_body req = BodyFailed cause) /\
    status response = 400 /\ pending s' = pending s /\
    totalRejected s' = totalRejected s + 1 /\
    totalAccepted s' = totalAccepted s)
   \/ ((exists text, req_body req = BodyText text) /\
       (maxQueueSize cfg <= Z.of_nat (length (pending s)))%Z /\
       status response = 503 /\ pending s' = pending s /\
       totalRejected s' = totalRejected s + 1 /\
       totalAccepted s' = totalAccepted s)
   \/ ((exists text, req_body req = BodyText text) /\
       (Z.of_nat (length (pending s)) < maxQueueSize cfg)%Z /\
       status response = 202 /\
       (exists record : RequestRecord,
           pending s' = pending s ++ [record] /\
           trace_id record = traceIdOf req amb) /\
       deadLetters s' = deadLetters s /\
       totalAccepted s' = totalAccepted s + 1 /\
       totalRejected s' = totalRejected s /\
       totalDeadLetters s' = totalDeadLetters s)).
Proof.
  intros Hev s' response. subst s' response.
  destruct (req_body req) as [text|cause] eqn:Hbody.
  - destruct (Z.le_gt_cases (maxQueueSize cfg) (Z.of_nat (length (pending s))))
      as [Hfull|Hroom].
    + rewrite (accept_full cfg req amb s text Hev Hbody Hfull).
      split; [reflexivity|]. right. left.
      destruct (enqueueDeadLetter_frame cfg
                  {| trace_id := traceIdOf req amb; received_at := now amb;
                     method := req_method req; path := req_pathname req;
                     payload := if String.length text =? 0 then None else Some text |}
                  "queue_overflow" (admit_begin s)) as (Hp & Ha & Hr).
      cbn in *. rewrite Hp, Ha, Hr. eauto 10.
    + rewrite (accept_room cfg req amb s text Hev Hbody Hroom).
      split; [reflexivity|]. right. right. cbn.
      split; [eauto|]. split; [lia|]. split; [reflexivity|].
      split; [eexists; split; reflexivity|]. auto.
  - rewrite (reject_body cfg req amb s cause Hev Hbody).
    split; [reflexivity|]. left.
    destruct (enqueueDeadLetter_frame cfg
                {| trace_id := traceIdOf req amb; received_at := now amb;
                   method := req_method req; path := req_pathname req;
                   payload := None |}
                ("body_read_failed: " ++ formatError cause) (admit_begin s))
      as (Hp & Ha & Hr).
    cbn in *. rewrite Hp, Ha, Hr. eauto 10.
Qed.

Lemma admission_outcome_witness :
  status (handleRequest smallConfig unreadable (ambient "u") initialState).2 = 400 /\
  x_trace_id (handleRequest smallConfig unreadable (ambient "u") initialState).2
  = Some "t-9".
Proof.
  destruct (admission_outcome smallConfig unreadable (ambient "u") initialState
              eq_refl) as [Hid _].
  split; [reflexivity | exact Hid].
Defined.

(** X7: when the gate turns a request away and the Dead-Letter Queue has
    room, the record appended to it carries the trace id of the answer, the
    method and path of the request and the time of the rejection, and an
    error of at most 1000 characters: ["queue_overflow"] with the payload
    that was read (null for an empty body) when the Record Queue is full,
    the first 1000 characters of ["body_read_failed: "] followed by the
    cause, with a null payload, when the body cannot be read. *)
Theorem admission_dead_letter_record (cfg : Config) (req : Request)
    (amb : Ambient) (s : State) :
  rejected_request cfg req s ->
  (Z.of_nat (length (deadLetters s)) < maxDeadQueueSize cfg)%Z ->
  exists dl : DeadLetterRecord,
    deadLetters (handleRequest cfg req amb s).1 = deadLetters s ++ [dl] /\
    trace_id (base dl) = traceIdOf req amb /\
    x_trace_id (handleRequest cfg req amb s).2 = Some (trace_id (base dl)) /\
    method (base dl) = req_method req /\
    path (base dl) = req_pathname req /\
    received_at (base dl) = now amb /\
    String.length (error dl) <= 1000 /\
    match req_body req with
    | BodyFailed cause =>
        payload (base dl) = None /\
        error dl = substring 0 1000 ("body_read_failed: " ++ formatError cause)
    | BodyText text =>
        payload (base dl) = (if String.length text =? 0 then None else Some text) /\
        error dl = "queue_overflow"
    end.
Proof.
  intros [Hev Hwhy] Hroom.
  destruct (req_body req) as [text|cause] eqn:Hbody.
  - destruct Hwhy as [[cause Hc]|Hfull]; [discriminate|].
    rewrite (accept_full cfg req amb s text Hev Hbody Hfull).
    cbn [fst snd]. rewrite enqueueDeadLetter_room by exact Hroom.
    eexists. split; [reflexivity|]. cbn. repeat split. lia.
  - rewrite (reject_body cfg req amb s cause Hev Hbody).
    cbn [fst snd]. rewrite enqueueDeadLetter_room by exact Hroom.
    eexists. split; [reflexivity|].
    cbn [base error trace_id method path received_at payload x_trace_id].
    repeat split. apply length_slice1000.
Qed.

Lemma admission_dead_letter_record_witness :
  exists dl : DeadLetterRecord,
    deadLetters (handleRequest smallConfig unreadable (ambient "u") initialState).1
    = [dl] /\
    trace_id (base dl) = "t-9" /\
    error dl = "body_read_failed: aborted".
Proof.
  destruct (admission_dead_letter_record smallConfig unreadable (ambient "u")
              initialState)
    as (dl & Hd & Ht & _ & _ & _ & _ & _ & _ & He).
  - split; [reflexivity|]. left. eexists. reflexivity.
  - simpl. lia.
  - exists dl. split; [exact Hd|]. split; [exact Ht | exact He].
Defined.

(** ** Repeated flush cycles *)

Lemma flushQueue_idle_effect (cfg : Config) (r : db_result) (t : Z) (s : State) :
  flushing s = false ->
  let s' := flushQueue cfg r t s in
  let batch := take (Z.to_nat (batchSize cfg)) (pending s) in
  pending s' = drop (Z.to_nat (batchSize cfg)) (pending s) /\
  flushing s' = false /\
  deadFlushing s' = deadFlushing s /\
  match r with
  | Inserted =>
      deadLetters s' = deadLetters s /\ totalDbErrors s' = totalDbErrors s /\
      flushQueue_throws cfg r s = false
  | InsertFailed cause =>
      ((Z.of_nat (length batch) <= maxArguments cfg)%Z ->
       deadLetters s'
       = deadLetters s ++ map (insert_failed (formatError cause)) batch /\
       flushQueue_throws cfg r s = false) /\
      ((maxArguments cfg < Z.of_nat (length batch))%Z ->
       deadLetters s' = deadLetters s /\
       (pending s <> [] -> flushQueue_throws cfg r s = true))
  end.
Proof.
  intros Hidle. unfold flushQueue, flushQueue_throws.
  destruct (flushQueue_begin_cases cfg s) as [[Hb [Hf|He]] | [_ Hb]]; rewrite Hb.
  - congruence.
  - rewrite He, drop_nil, take_nil. cbn [map length].
    split; [reflexivity|]. split; [exact Hidle|]. split; [reflexivity|].
    destruct r; [auto|]. rewrite app_nil_r.
    split; [auto|]. intros _. split; [reflexivity|]. intros H. contradiction.
  - destruct r as [|cause]; [cbn; auto 10|].
    destruct (flushQueue_resume_failed cfg
                (take (Z.to_nat (batchSize cfg)) (pending s)) cause t
                (set_pending (drop (Z.to_nat (batchSize cfg)) (pending s))
                   (set_flushing true s)))
      as (_ & _ & Hp & _ & Hf & Hok & Hno).
    cbv zeta in *. rewrite Hp, Hf.
    split; [reflexivity|]. split; [reflexivity|].
    split; [unfold flushQueue_resume; destruct (spread_refused _ _); reflexivity|].
    split; [exact Hok|]. intros Hbig. destruct (Hno Hbig). auto.
Qed.

(** X8: any number of flush cycles of the Record Queue, run one after the
    other from a state where none is in flight, removes the records in order
    of arrival, [batchSize] per cycle, whatever the inserts do.  The cycles
    never add to the number of records held in the two queues together; when
    every insert succeeds the Dead-Letter Queue and [totalDbErrors] are
    untouched; and when every insert fails and a whole batch can be spread in
    one call ([batchSize] at most the engine's limit), every record is still
    held, in one queue or the other. *)
Theorem flushCycles_drain (cfg : Config) (rounds : list (db_result * Z)) (s : State) :
  flushing s = false ->
  let s' := flushCycles cfg rounds s in
  pending s' = drop (length rounds * Z.to_nat (batchSize cfg)) (pending s) /\
  flushing s' = false /\
  length (pending s') + length (deadLetters s')
  <= length (pending s) + length (deadLetters s) /\
  (Forall (fun round => round.1 = Inserted) rounds ->
   deadLetters s' = deadLetters s /\ totalDbErrors s' = totalDbErrors s) /\
  ((0 <= maxArguments cfg)%Z -> (batchSize cfg <= maxArguments cfg)%Z ->
   Forall (fun round => exists cause, round.1 = InsertFailed cause) rounds ->
   length (pending s') + length (deadLetters s')
   = length (pending s) + length (deadLetters s)).
Proof.
  revert s. induction rounds as [|[r t] rounds IH]; intros s Hidle.
  - cbn. rewrite drop_0. auto 10.
  - change (flushCycles cfg ((r, t) :: rounds) s)
      with (flushCycles cfg rounds (flushQueue cfg r t s)).
    destruct (flushQueue_idle_effect cfg r t s Hidle) as (Hp & Hf & _ & Hd).
    destruct (IH (flushQueue cfg r t s) Hf) as (IHp & IHf & IHle & IHok & IHfail).
    cbn zeta in *.
    set (batch := take (Z.to_nat (batchSize cfg)) (pending s)) in *.
    assert (Hbatch : length batch <= Z.to_nat (batchSize cfg)).
    { subst batch. rewrite length_take. lia. }
    assert (Hsplit : length (pending s)
                     = length batch + length (drop (Z.to_nat (batchSize cfg)) (pending s))).
    { rewrite <- (take_drop (Z.to_nat (batchSize cfg)) (pending s)) at 1.
      rewrite length_app. reflexivity. }
    assert (Hlen : length (pending (flushQueue cfg r t s))
                   + length (deadLetters (flushQueue cfg r t s))
                   <= length (pending s) + length (deadLetters s)
                   /\ ((0 <= maxArguments cfg)%Z ->
                       (batchSize cfg <= maxArguments cfg)%Z ->
                       (exists cause, r = InsertFailed cause) ->
                       length (pending (flushQueue cfg r t s))
                       + length (deadLetters (flushQueue cfg r t s))
                       = length (pending s) + length (deadLetters s))).
    { rewrite Hp. destruct r as [|cause].
      - destruct Hd as (-> & _). split; [lia|]. intros _ _ [c Hc]. discriminate.
      - destruct Hd as [Hok Hno].
        destruct (Z.le_gt_cases (Z.of_nat (length batch)) (maxArguments cfg))
          as [Hfit|Hbig].
        + destruct (Hok Hfit) as [-> _]. rewrite length_app, length_map.
          split; intros; lia.
        + destruct (Hno Hbig) as [-> _]. split; [lia|]. intros; lia. }
    split.
    { rewrite IHp, Hp, drop_drop. reflexivity. }
    split; [exact IHf|]. split; [lia|]. split.
    + intros Hall. apply Forall_cons in Hall as [Hr Hall]. cbn in Hr. subst r.
      destruct Hd as (Hd & He & _). destruct (IHok Hall) as [-> ->]. auto.
    + intros H0 Hspread Hall. apply Forall_cons in Hall as [Hr Hall]. cbn in Hr.
      rewrite (IHfail H0 Hspread Hall). apply Hlen; assumption.
Qed.

Lemma flushCycles_drain_witness :
  pending
    (flushCycles oneAtATime
       [(Inserted, 5%Z); (InsertFailed (ThrownError "down"), 6%Z)] twoPending)
  = [] /\
  flushing twoPending = false.
Proof.
  split; [|reflexivity].
  exact (proj1 (flushCycles_drain oneAtATime
                  [(Inserted, 5%Z); (InsertFailed (ThrownError "down"), 6%Z)]
                  twoPending eq_refl)).
Defined.

(** X9: in every state the server can reach, while the insert of a flush
    cycle is awaited a further call of that cycle returns at once and takes
    nothing from its queue, so no queue ever has two batches in flight; and
    when no insert is awaited the in-flight flag is down. *)
Theorem flush_cycles_never_overlap (cfg : Config) (w : World) :
  reachable cfg w ->
  (is_Some (awaiting_insert w) -> flushQueue_begin cfg (st w) = (st w, None)) /\
  (is_Some (awaiting_dead_insert w) ->
   flushDeadLetters_begin cfg (st w) = (st w, None)) /\
  (awaiting_insert w = None -> flushing (st w) = false) /\
  (awaiting_dead_insert w = None -> deadFlushing (st w) = false).
Proof.
  intros Hreach. destruct (flags_track_awaits cfg w Hreach) as [Hf Hd].
  split; [|split; [|split]].
  - intros H. apply flushQueue_begin_idle. left. apply Hf, H.
  - intros H. apply flushDeadLetters_begin_idle. left. apply Hd, H.
  - intros Hnone. destruct (flushing (st w)) eqn:E; [|reflexivity].
    destruct (proj1 Hf eq_refl) as [b Hb]. congruence.
  - intros Hnone. destruct (deadFlushing (st w)) eqn:E; [|reflexivity].
    destruct (proj1 Hd eq_refl) as [b Hb]. congruence.
Qed.

Lemma flush_cycles_never_overlap_witness :
  flushing (st overfullWorld) = false /\ deadFlushing (st overfullWorld) = false.
Proof.
  destruct (flush_cycles_never_overlap smallConfig overfullWorld
              overfullWorld_reachable) as (_ & _ & Hf & Hd).
  split; [exact (Hf eq_refl) | exact (Hd eq_refl)].
Defined.

(** ** A failed dead-letter flush, run without interruption *)

Lemma map_base_requeued (errorMessage : string) (batch : list DeadLetterRecord) :
  map base (map (requeued errorMessage) batch) = map base batch.
Proof. induction batch as [|dl batch IH]; [reflexivity|]. cbn. f_equal. exact IH. Qed.

(** X10: a dead-letter flush that runs without interruption and whose
    insert fails has one of three ends.  If the queue was within
    [maxDeadQueueSize] when the flush began and the batch is no longer than
    the engine takes as the arguments of one call, the batch is put back in
    front with the longer errors: the queue holds the same records in the
    same order as before.  If the queue was within the bound but the batch is
    longer than that, the engine refuses the call: the batch is lost without
    a warning and the flush ends by throwing.  If the queue was longer than
    [maxDeadQueueSize], the batch is lost and the warning is written.  In the
    last two cases only the records behind the batch remain. *)
Theorem failed_dead_flush_keeps_or_loses_batch (cfg : Config) (s : State)
    (cause : thrown) (t : Z) :
  deadFlushing s = false -> deadLetters s <> [] ->
  let s' := flushDeadLetters cfg (InsertFailed cause) t s in
  let n := Z.to_nat (batchSize cfg) in
  let batch := take n (deadLetters s) in
  let throws := flushDeadLetters_throws cfg (InsertFailed cause) s in
  ((Z.of_nat (length (deadLetters s)) <= maxDeadQueueSize cfg)%Z ->
   (Z.of_nat (length batch) <= maxArguments cfg)%Z ->
   deadLetters s'
   = map (requeued (formatError cause)) batch ++ drop n (deadLetters s) /\
   map base (deadLetters s') = map base (deadLetters s) /\
   console s' = console s /\ throws = false) /\
  ((Z.of_nat (length (deadLetters s)) <= maxDeadQueueSize cfg)%Z ->
   (maxArguments cfg < Z.of_nat (length batch))%Z ->
   deadLetters s' = drop n (deadLetters s) /\
   console s' = console s /\ throws = true) /\
  ((maxDeadQueueSize cfg < Z.of_nat (length (deadLetters s)))%Z ->
   deadLetters s' = drop n (deadLetters s) /\
   console s' = console s ++ [overflow_dropping_records] /\ throws = false) /\
  pending s' = pending s /\
  totalDbErrors s' = totalDbErrors s + 1 /\
  deadFlushing s' = false /\
  lastDeadFlushAt s' = Some t.
Proof.
  intros Hidle Hne s' n batch throws. subst s' throws.
  unfold flushDeadLetters, flushDeadLetters_throws.
  rewrite (flushDeadLetters_begin_runs cfg s Hidle Hne). fold n. fold batch.
  set (s1 := set_deadLetters (drop n (deadLetters s)) (set_deadFlushing true s)).
  destruct (flushDeadLetters_resume_failed cfg batch cause t s1)
    as (He & _ & Hp & Hat & Hf & Hback & Hrefused & Hover).
  cbv zeta in *.
  assert (Hlen : length (deadLetters s1) + length batch = length (deadLetters s)).
  { subst s1 batch. cbn [deadLetters set_deadLetters].
    rewrite <- (take_drop n (deadLetters s)) at 3. rewrite length_app. lia. }
  rewrite Hlen in Hback, Hrefused, Hover.
  split; [|split; [|split]].
  - intros Hfit Hok. destruct (Hback Hfit Hok) as (Hd & Hc & Ht).
    rewrite Hd, Hc, Ht. split; [reflexivity|]. split; [|auto].
    subst s1 batch. cbn [deadLetters set_deadLetters].
    rewrite map_app, map_base_requeued, <- map_app, take_drop. reflexivity.
  - intros Hfit Hbig. destruct (Hrefused Hfit Hbig) as (Hd & Hc & Ht).
    rewrite Hd, Hc, Ht. auto.
  - intros Hlong. destruct (Hover ltac:(lia)) as (Hd & Hc & Ht).
    rewrite Hd, Hc, Ht. auto.
  - rewrite He, Hp, Hat, Hf. auto.
Qed.

Lemma failed_dead_flush_keeps_or_loses_batch_witness :
  deadLetters afterFailedFlush <> [] /\
  deadLetters
    (flushDeadLetters smallConfig (InsertFailed (ThrownError "down")) 9%Z
       afterFailedFlush)
  = [] /\
  map error
    (deadLetters
       (flushDeadLetters smallConfig (InsertFailed (ThrownError "down")) 9%Z oneDead))
  = ["body_read_failed: aborted; dead_letter_insert_failed: down"] /\
  flushDeadLetters_throws floodDeadConfig (InsertFailed (ThrownError "down"))
    floodDead
  = true.
Proof.
  split; [discriminate|]. split; [|split].
  - destruct (failed_dead_flush_keeps_or_loses_batch smallConfig afterFailedFlush
                (ThrownError "down") 9%Z eq_refl ltac:(discriminate))
      as (_ & _ & Hlost & _).
    exact (proj1 (Hlost ltac:(vm_compute; reflexivity))).
  - destruct (failed_dead_flush_keeps_or_loses_batch smallConfig oneDead
                (ThrownError "down") 9%Z eq_refl ltac:(discriminate))
      as (Hkept & _).
    rewrite (proj1 (Hkept ltac:(vm_compute; discriminate)
                      ltac:(vm_compute; discriminate))).
    vm_compute. reflexivity.
  - destruct (failed_dead_flush_keeps_or_loses_batch floodDeadConfig floodDead
                (ThrownError "down") 9%Z eq_refl ltac:(discriminate))
      as (_ & Hrefused & _).
    exact (proj2 (proj2 (Hrefused ltac:(vm_compute; discriminate)
                           ltac:(vm_compute; reflexivity)))).
Defined.

(** ** Shutdown *)

Lemma flushDeadLetters_idle_effect (cfg : Config) (t : Z) (s : State) :
  deadFlushing s = false ->
  let s' := flushDeadLetters cfg Inserted t s in
  deadLetters s' = drop (Z.to_nat (batchSize cfg)) (deadLetters s) /\
  pending s' = pending s /\ totalDbErrors s' = totalDbErrors s.
Proof.
  intros Hidle. unfold flushDeadLetters.
  destruct (flushDeadLetters_begin_cases cfg s) as [[Hb [Hf|He]] | [_ Hb]];
    rewrite Hb.
  - congruence.
  - rewrite He, drop_nil. auto.
  - cbn. auto.
Qed.

Lemma flushDeadLetters_pending (cfg : Config) (r : db_result) (t : Z) (s : State) :
  pending (flushDeadLetters cfg r t s) = pending s.
Proof.
  unfold flushDeadLetters.
  destruct (flushDeadLetters_begin_cases cfg s) as [[-> _] | [_ ->]]; [reflexivity|].
  rewrite (proj1 (flushDeadLetters_resume_frame cfg _ r t _)). reflexivity.
Qed.

Lemma flushDeadLetters_throws_Inserted (cfg : Config) (s : State) :
  flushDeadLetters_throws cfg Inserted s = false.
Proof.
  unfold flushDeadLetters_throws.
  destruct (flushDeadLetters_begin cfg s) as [s1 [batch|]]; reflexivity.
Qed.

(** X11: [shutdown], started while no flush is in flight and run without
    interruption, flushes one batch of each queue at most.  Whatever happens,
    the records of the Record Queue behind the first [batchSize] are still in
    it at the end.  When both inserts succeed, the Dead-Letter Queue likewise
    keeps what lies behind its first batch, and the process exits if the
    connection closes.  When the first insert fails on a batch longer than
    the engine takes as the arguments of one call, [flushQueue] throws:
    [shutdown] stops there, before the dead-letter flush and before the exit,
    and the batch is in no queue.  When the Dead-Letter Queue was empty and
    the first insert fails on a batch within that limit, the failed records
    are the batch of the dead-letter insert of the same shutdown; if that
    insert succeeds the Dead-Letter Queue is empty at the end. *)
Theorem shutdown_flushes_one_batch (cfg : Config) (r1 r2 : db_result)
    (t1 t2 : Z) (closed : bool) (s : State) :
  flushing s = false -> deadFlushing s = false ->
  let n := Z.to_nat (batchSize cfg) in
  let batch := take n (pending s) in
  let done := shutdown cfg r1 t1 r2 t2 closed s in
  pending done.1 = drop n (pending s) /\
  (r1 = Inserted -> r2 = Inserted ->
   deadLetters done.1 = drop n (deadLetters s) /\
   done.2 = (if closed then Exited else Aborted)) /\
  (forall cause : thrown,
      r1 = InsertFailed cause -> pending s <> [] ->
      (maxArguments cfg < Z.of_nat (length batch))%Z ->
      done = (flushQueue cfg r1 t1 s, Aborted) /\
      deadLetters done.1 = deadLetters s /\
      lastDeadFlushAt done.1 = lastDeadFlushAt s) /\
  (forall cause : thrown,
      r1 = InsertFailed cause -> deadLetters s = [] ->
      (Z.of_nat (length batch) <= maxArguments cfg)%Z ->
      (batch <> [] ->
       (flushDeadLetters_begin cfg (flushQueue cfg r1 t1 s)).2
       = Some (map (insert_failed (formatError cause)) batch)) /\
      (r2 = Inserted ->
       deadLetters done.1 = [] /\
       done.2 = (if closed then Exited else Aborted))).
Proof.
  intros Hf Hd n batch done. subst done. unfold shutdown.
  destruct (flushQueue_idle_effect cfg r1 t1 s Hf) as (Hp & _ & Hd1 & Hdl).
  rewrite Hd in Hd1. cbv zeta in Hdl. fold n in Hp, Hdl. fold batch in Hdl.
  split.
  { destruct (flushQueue_throws cfg r1 s); [exact Hp|].
    destruct (flushDeadLetters_throws cfg r2 (flushQueue cfg r1 t1 s));
      [|destruct closed]; cbn [fst]; rewrite flushDeadLetters_pending; exact Hp. }
  split; [|split].
  - intros -> ->. destruct Hdl as (Hdl & _ & ->).
    rewrite flushDeadLetters_throws_Inserted.
    destruct (flushDeadLetters_idle_effect cfg t2 _ Hd1) as (Hdrop & _).
    split.
    + destruct closed; cbn [fst]; rewrite Hdrop, Hdl; reflexivity.
    + destruct closed; reflexivity.
  - intros cause -> Hne Hbig. destruct Hdl as [_ Hno].
    destruct (Hno Hbig) as [Hsame Hthrows]. rewrite (Hthrows Hne).
    split; [reflexivity|]. cbn [fst]. split; [exact Hsame|].
    unfold flushQueue. rewrite (flushQueue_begin_runs cfg s Hf Hne).
    unfold flushQueue_resume. destruct (spread_refused _ _); reflexivity.
  - intros cause -> Hempty Hok. destruct Hdl as [Hfit _].
    destruct (Hfit Hok) as [Hdl ->]. rewrite Hempty in Hdl. cbn [app] in Hdl.
    split.
    + intros Hne.
      rewrite flushDeadLetters_begin_runs;
        [|exact Hd1 | rewrite Hdl; destruct batch; [contradiction|discriminate]].
      cbn [snd]. rewrite Hdl. apply f_equal, take_ge.
      subst batch. rewrite length_map, length_take. lia.
    + intros ->. rewrite flushDeadLetters_throws_Inserted.
      destruct (flushDeadLetters_idle_effect cfg t2 _ Hd1) as (Hdrop & _).
      assert (Hgone : drop n (map (insert_failed (formatError cause)) batch) = []).
      { apply drop_ge. subst batch. rewrite length_map, length_take. lia. }
      split.
      * destruct closed; cbn [fst]; rewrite Hdrop, Hdl; exact Hgone.
      * destruct closed; reflexivity.
Qed.

Lemma shutdown_flushes_one_batch_witness :
  (flushing twoPending = false /\ deadFlushing twoPending = false /\
   length (pending (shutdown oneAtATime Inserted 5%Z Inserted 6%Z true twoPending).1)
   = 1) /\
  (pending floodPending <> [] /\
   (shutdown floodConfig (InsertFailed (ThrownError "down")) 5%Z Inserted 6%Z true
      floodPending).2
   = Aborted).
Proof.
  split.
  - split; [reflexivity|]. split; [reflexivity|].
    rewrite (proj1 (shutdown_flushes_one_batch oneAtATime Inserted Inserted
                      5%Z 6%Z true twoPending eq_refl eq_refl)).
    reflexivity.
  - split; [discriminate|].
    destruct (shutdown_flushes_one_batch floodConfig
                (InsertFailed (ThrownError "down")) Inserted 5%Z 6%Z true
                floodPending eq_refl eq_refl) as (_ & _ & Habort & _).
    destruct (Habort (ThrownError "down") eq_refl ltac:(discriminate)
                ltac:(vm_compute; reflexivity)) as (-> & _).
    reflexivity.
Defined.

(** ** Queue bounds along a run *)

(** X12: with [maxQueueSize] not negative, the Record Queue never holds more
    than [maxQueueSize] records, in any state the server can reach. *)
Theorem record_queue_within_bound (cfg : Config) (w : World) :
  (0 <= maxQueueSize cfg)%Z ->
  reachable cfg w ->
  (Z.of_nat (length (pending (st w))) <= maxQueueSize cfg)%Z.
Proof. apply pending_bounded. Qed.

Lemma record_queue_within_bound_witness :
  (Z.of_nat (length (pending (st overfullWorld))) <= 2)%Z.
Proof.
  apply (record_queue_within_bound smallConfig overfullWorld);
    [discriminate | exact overfullWorld_reachable].
Defined.

(** X13: with [maxDeadQueueSize] not negative, the Dead-Letter Queue stays
    within [maxDeadQueueSize] along every run in which no insert of the
    Record Queue fails: admissions and both phases of the dead-letter flush
    keep the bound. *)
Theorem dead_letter_queue_within_bound_when_calm (cfg : Config) (w : World) :
  (0 <= maxDeadQueueSize cfg)%Z ->
  rtc (calm_step cfg) initialWorld w ->
  (Z.of_nat (length (deadLetters (st w))) <= maxDeadQueueSize cfg)%Z.
Proof.
  intros Hmax. revert w. apply rtc_ind_r; [exact Hmax|].
  intros w w' _ [Hstep Hcalm] IH.
  destruct (dead_letters_bounded_step cfg w w' Hstep IH) as [H|H];
    [exact H | contradiction].
Qed.

Lemma dead_letter_queue_within_bound_when_calm_witness :
  length (deadLetters oneDead) = 1 /\
  (Z.of_nat (length (deadLetters oneDead)) <= 1)%Z.
Proof.
  split; [reflexivity|].
  apply (dead_letter_queue_within_bound_when_calm smallConfig
           {| st := oneDead; awaiting_body := [];
              awaiting_insert := None; awaiting_dead_insert := None |});
    [discriminate|].
  eapply rtc_l.
  { split; [exact (step_admit_begin smallConfig unreadable _ eq_refl)|].
    intros (batch & _ & _ & Hb & _). discriminate Hb. }
  eapply rtc_l.
  { split; [apply (step_admit_resume smallConfig unreadable (ambient "u") [] []);
            reflexivity|].
    intros (batch & _ & _ & Hb & _). discriminate Hb. }
  vm_compute. apply rtc_refl.
Defined.

(** ** Routes *)

(** X14: a request that is not a [POST] to [/api/v1/events] never changes
    the state: nothing is counted, queued or timed.  It is answered 200 on
    the two [GET] routes and 404 everywhere else, and carries no trace id. *)
Theorem only_events_post_changes_state (cfg : Config) (req : Request)
    (amb : Ambient) (s : State) :
  req_method req <> "POST" \/ req_pathname req <> "/api/v1/events" ->
  (handleRequest cfg req amb s).1 = s /\
  x_trace_id (handleRequest cfg req amb s).2 = None /\
  (status (handleRequest cfg req amb s).2 = 200 <->
   req_method req = "GET" /\
   (req_pathname req = "/api/health" \/ req_pathname req = "/metrics")) /\
  (status (handleRequest cfg req amb s).2 = 404 <->
   ~ (req_method req = "GET" /\
      (req_pathname req = "/api/health" \/ req_pathname req = "/metrics"))).
Proof.
  intros Hnot.
  assert (Hev : is_events req = false).
  { unfold is_events. apply andb_false_iff.
    destruct Hnot as [H|H]; [left|right]; apply String.eqb_neq; exact H. }
  unfold handleRequest, is_health, is_metrics. rewrite Hev.
  change (basePath ++ "/health")%string with "/api/health".
  destruct (String.eqb_spec (req_method req) "GET") as [Hm|Hm];
    destruct (String.eqb_spec (req_pathname req) "/api/health") as [Hp|Hp];
    destruct (String.eqb_spec (req_pathname req) "/metrics") as [Hq|Hq];
    cbn; (split; [reflexivity|]); (split; [reflexivity|]);
    split; split; intros H; try discriminate H; try tauto;
    exfalso; tauto.
Qed.

Lemma only_events_post_changes_state_witness :
  let req := {| req_method := "GET"; req_pathname := "/api/v1/events";
                req_x_trace_id := Some "t"; req_body := BodyText "x" |} in
  (handleRequest smallConfig req (ambient "u") twoPending).1 = twoPending /\
  status (handleRequest smallConfig req (ambient "u") twoPending).2 = 404.
Proof.
  destruct (only_events_post_changes_state smallConfig
              {| req_method := "GET"; req_pathname := "/api/v1/events";
                 req_x_trace_id := Some "t"; req_body := BodyText "x" |}
              (ambient "u") twoPending ltac:(left; discriminate))
    as (Hs & _ & _ & H404).
  split; [exact Hs|]. apply H404. intros [_ [H|H]]; discriminate.
Defined.

(** ** What is stored *)

Lemma events_record_built (req : Request) (amb : Ambient) (text : string) :
  is_events req = true ->
  events_record
    {| trace_id := traceIdOf req amb; received_at := now amb;
       method := req_method req; path := req_pathname req;
       payload := if String.length text =? 0 then None else Some text |} /\
  events_record
    {| trace_id := traceIdOf req amb; received_at := now amb;
       method := req_method req; path := req_pathname req; payload := None |}.
Proof.
  intros Hev. unfold is_events in Hev. apply andb_prop in Hev as [Hm Hp].
  apply String.eqb_eq in Hm. apply String.eqb_eq in Hp.
  unfold events_record; cbn. rewrite Hm, Hp.
  split; (split; [reflexivity|]); (split; [reflexivity|]); [|discriminate].
  destruct text; cbn; discriminate.
Qed.

Lemma admit_resume_stored (cfg : Config) (req : Request) (amb : Ambient) (s : State) :
  is_events req = true ->
  let s' := (admit_resume cfg req amb s).1 in
  (pending s' = pending s \/
   exists record, pending s' = pending s ++ [record] /\ events_record record) /\
  (deadLetters s' = deadLetters s \/
   exists dl, deadLetters s' = deadLetters s ++ [dl] /\ events_record (base dl)).
Proof.
  intros Hev. unfold admit_resume, admit_settle, enqueueDeadLetter.
  destruct (req_body req) as [text|cause].
  - destruct (events_record_built req amb text Hev) as [Hrec _].
    destruct (_ <=? _)%Z; [destruct (_ <=? _)%Z|]; cbn; split; eauto.
  - destruct (events_record_built req amb "" Hev) as [_ Hrec].
    destruct (_ <=? _)%Z; cbn; split; eauto.
Qed.

Lemma stored_records_invariant (cfg : Config) (w : World) :
  reachable cfg w ->
  only_events_records w /\ Forall (fun req => is_events req = true) (awaiting_body w).
Proof.
  revert w. apply reachable_invariant.
  - split; [|constructor].
    repeat split; try constructor; intros batch H; discriminate H.
  - intros w w' _ [(Hp & Hd & Hi & Hdi) Hreq] Hstep. unfold only_events_records.
    destruct Hstep as [req amb w Hne | req w Hev | req amb before after w Haw
                      | w | batch r t w Haw | w | batch r t w Haw];
      cbn [st awaiting_body awaiting_insert awaiting_dead_insert].
    + rewrite other_route by exact Hne. auto.
    + split; [auto|]. apply Forall_app. split; [exact Hreq|]. repeat constructor.
      exact Hev.
    + rewrite Haw in Hreq. apply Forall_app in Hreq as [Hbefore Hrest].
      apply Forall_cons in Hrest as [Hev Hafter].
      split; [|apply Forall_app; auto].
      destruct (admit_resume_stored cfg req amb (st w) Hev)
        as [[-> | (record & -> & Hrec)] [-> | (dl & -> & Hdl)]];
        repeat split; auto; apply Forall_app; split; auto.
    + split; [|exact Hreq].
      destruct (flushQueue_begin_cases cfg (st w)) as [[-> _] | [_ ->]]; cbn.
      * auto.
      * repeat split; auto using Forall_drop.
        intros batch [= <-]. apply Forall_take, Hp.
    + split; [|exact Hreq].
      destruct (flushQueue_resume_frame cfg batch r t (st w)) as (-> & _).
      repeat split; auto; [|intros b H; discriminate H].
      unfold flushQueue_resume. destruct r as [|cause]; [exact Hd|].
      destruct (spread_refused _ _); cbn; [exact Hd|].
      apply Forall_app. split; [exact Hd|].
      apply Forall_map. exact (Hi batch Haw).
    + split; [|exact Hreq].
      destruct (flushDeadLetters_begin_cases cfg (st w)) as [[-> _] | [_ ->]]; cbn.
      * auto.
      * repeat split; auto using Forall_drop.
        intros batch [= <-]. apply Forall_take, Hd.
    + split; [|exact Hreq].
      destruct (flushDeadLetters_resume_frame cfg batch r t (st w)) as (-> & _).
      repeat split; auto; [|intros b H; discriminate H].
      unfold flushDeadLetters_resume. destruct r as [|cause]; [exact Hd|].
      match goal with |- context [if ?b then _ else _] => destruct b end;
        [destruct (spread_refused _ _)|]; cbn; try exact Hd.
      apply Forall_app. split; [|exact Hd].
      apply Forall_map. exact (Hdi batch Haw).
Qed.

(** X15: in every state the server can reach, every record held in memory
    (in either queue, or in a batch whose insert is awaited) was built by the
    events route: its method is [POST], its path is [/api/v1/events], and its
    payload is null or a non-empty text, never the empty string. *)
Theorem stored_records_come_from_events_route (cfg : Config) (w : World) :
  reachable cfg w -> only_events_records w.
Proof. intros Hreach. exact (proj1 (stored_records_invariant cfg w Hreach)). Qed.

Lemma stored_records_come_from_events_route_witness :
  length (deadLetters (st overfullWorld)) = 2 /\
  Forall (fun dl => events_record (base dl)) (deadLetters (st overfullWorld)).
Proof.
  split; [reflexivity|].
  exact (proj1 (proj2 (stored_records_come_from_events_route smallConfig
                         overfullWorld overfullWorld_reachable))).
Defined.

(** ** Where the accepted records are *)

Lemma counted_run_reachable (cfg : Config) (w : World) (inserted failed : nat) :
  counted_run cfg w inserted failed -> reachable cfg w.
Proof.
  unfold reachable. induction 1 as [| w w' i f _ IH Hstep _
                                    | w batch t i f _ IH Haw
                                    | w batch cause t i f _ IH Haw].
  - apply rtc_refl.
  - eapply rtc_r; eauto.
  - eapply rtc_r; [exact IH|]. apply step_flush_resume. exact Haw.
  - eapply rtc_r; [exact IH|]. apply step_flush_resume. exact Haw.
Qed.

Lemma admit_resume_accepted (cfg : Config) (req : Request) (amb : Ambient) (s : State) :
  let s' := (admit_resume cfg req amb s).1 in
  totalAccepted s' + length (pending s) = totalAccepted s + length (pending s').
Proof.
  unfold admit_resume, admit_settle, enqueueDeadLetter.
  destruct (req_body req);
    repeat match goal with |- context [if ?b then _ else _] => destruct b end;
    cbn; rewrite ?length_app; simpl; lia.
Qed.

Lemma accepted_records_located (cfg : Config) (w : World) (inserted failed : nat) :
  counted_run cfg w inserted failed ->
  totalAccepted (st w)
  = length (pending (st w)) + in_flight w + inserted + failed.
Proof.
  induction 1 as [| w w' i f Hrun IH Hstep Hquiet
                  | w batch t i f Hrun IH Haw
                  | w batch cause t i f Hrun IH Haw].
  - reflexivity.
  - pose proof (counted_run_reachable _ _ _ _ Hrun) as Hreach.
    destruct (flags_track_awaits cfg w Hreach) as [Hflag _].
    pose proof (flush_steps_frame cfg (st w)) as Hframe.
    unfold in_flight in *.
    destruct Hstep as [req amb w Hne | req w Hev | req amb before after w Haw
                      | w | batch r t w Haw | w | batch r t w Haw];
      cbn [st awaiting_body awaiting_insert awaiting_dead_insert] in *.
    + rewrite other_route by exact Hne. exact IH.
    + exact IH.
    + pose proof (admit_resume_accepted cfg req amb (st w)) as Hacc.
      cbn zeta in Hacc. lia.
    + destruct (flushQueue_begin_cases cfg (st w)) as [[Hb _] | [Hidle Hb]];
        rewrite Hb; cbn [fst snd]; [exact IH|].
      destruct (awaiting_insert w) as [b|] eqn:Hb'.
      { assert (flushing (st w) = true) by (apply Hflag; eauto). congruence. }
      cbn. rewrite length_drop, length_take. lia.
    + destruct Hquiet as [Hn|Hn]; [congruence | contradiction].
    + destruct (Hframe _ (or_intror (or_introl eq_refl))) as (_ & _ & _ & -> & _).
      destruct (flushDeadLetters_begin_cases cfg (st w)) as [[-> _] | [_ ->]];
        exact IH.
    + destruct (Hframe (flushDeadLetters_resume cfg batch r t (st w)))
        as (_ & _ & _ & -> & _); [eauto 10|].
      rewrite (proj1 (flushDeadLetters_resume_frame cfg batch r t (st w))).
      exact IH.
  - unfold in_flight in *. cbn [st awaiting_insert]. rewrite Haw in IH.
    cbn. lia.
  - unfold in_flight in *. cbn [st awaiting_insert]. rewrite Haw in IH.
    destruct (flush_steps_frame cfg (st w)
                (flushQueue_resume cfg batch (InsertFailed cause) t (st w)))
      as (_ & _ & _ & -> & _); [eauto 10|].
    rewrite (proj1 (flushQueue_resume_frame cfg batch (InsertFailed cause) t (st w))).
    lia.
Qed.

Lemma reachable_counted (cfg : Config) (w : World) :
  reachable cfg w -> exists inserted failed, counted_run cfg w inserted failed.
Proof.
  revert w. apply reachable_invariant.
  - exists 0, 0. constructor.
  - intros w w' Hreach (i & f & Hrun) Hstep.
    destruct (flags_track_awaits cfg w Hreach) as [Hflag _].
    destruct (awaiting_insert w) as [b|] eqn:Hb;
      [|exists i, f; eapply counted_quiet; eauto].
    destruct Hstep as [req amb w Hne | req w Hev | req amb before after w Haw
                      | w | batch r t w Haw | w | batch r t w Haw].
    + exists i, f. eapply counted_quiet; [exact Hrun | constructor; exact Hne|].
      right. cbn. rewrite Hb. discriminate.
    + exists i, f. eapply counted_quiet; [exact Hrun | constructor; exact Hev|].
      right. cbn. rewrite Hb. discriminate.
    + exists i, f.
      eapply counted_quiet; [exact Hrun | econstructor; exact Haw|].
      right. cbn. rewrite Hb. discriminate.
    + exists i, f. eapply counted_quiet; [exact Hrun | constructor|].
      right. cbn. destruct (flushQueue_begin cfg (st w)).2; [|rewrite Hb]; discriminate.
    + destruct r as [|cause].
      * exists (i + length batch), f. apply counted_inserted; assumption.
      * exists i, (f + length batch). apply counted_failed; assumption.
    + exists i, f. eapply counted_quiet; [exact Hrun | constructor|].
      right. cbn. rewrite Hb. discriminate.
    + exists i, f.
      eapply counted_quiet; [exact Hrun | econstructor; exact Haw|].
      right. cbn. rewrite Hb. discriminate.
Qed.

(** X16: every accepted record is in exactly one place.  Along any run,
    [totalAccepted] equals the number of records in the Record Queue, plus
    those in the batch whose insert is awaited, plus those carried by the
    inserts that succeeded, plus those carried by the inserts that failed
    (whether or not they then reached the Dead-Letter Queue); and every state
    the server can reach is reached by such a counted run. *)
Theorem accepted_records_accounted (cfg : Config) :
  (forall (w : World) (inserted failed : nat),
      counted_run cfg w inserted failed ->
      reachable cfg w /\
      totalAccepted (st w)
      = length (pending (st w)) + in_flight w + inserted + failed) /\
  (forall w : World,
      reachable cfg w ->
      exists inserted failed : nat, counted_run cfg w inserted failed).
Proof.
  split.
  - intros w i f Hrun. split.
    + exact (counted_run_reachable cfg w i f Hrun).
    + exact (accepted_records_located cfg w i f Hrun).
  - exact (reachable_counted cfg).
Qed.

Lemma accepted_records_accounted_witness :
  exists inserted failed : nat,
    counted_run smallConfig overfullWorld inserted failed /\
    totalAccepted (st overfullWorld) = 0 + 0 + inserted + failed.
Proof.
  destruct (proj2 (accepted_records_accounted smallConfig) overfullWorld
              overfullWorld_reachable) as (i & f & Hrun).
  exists i, f. split; [exact Hrun|].
  exact (proj2 (proj1 (accepted_records_accounted smallConfig) _ _ _ Hrun)).
Defined.
